(** * RV-C source address claim arbitration (rv-link-node-red)

    A shallow embedding of the four Node-RED function nodes that implement
    address claiming:

    - [address_claim_request]  (src/functions/address_claim_request.js)
    - [address_claim_monitor]  (src/functions/address_claim_monitor.js)
    - [address_claim_success]  (src/functions/address_claim_success.js)
    - [store_claimed_address]  (the "RV-C Store Claimed Address Function",
                                second script in src/functions/unique_autofill.js)

    The scripts run against three Node-RED context stores ([flow], [global],
    [context]); they are embedded in a small state/exception/log monad [M]
    whose effect log records [node.warn]/[node.error]/[node.log] calls and
    context writes in program order.

    Modelling conventions: a context key or message property has the type
    its writers give it, wrapped in [js] for [undefined] and [null];
    JavaScript strings are ASCII strings; integral Numbers are [Z] (NaN
    appears only as the [None] result of [parseInt]); the value drawn by
    [Math.random] is a parameter of the request node. *)

From Stdlib Require Import ZArith String Ascii List Bool Lia DecimalString.
Import ListNotations.
Open Scope string_scope.
Open Scope Z_scope.

(** ** JavaScript values *)

(** A context key or message property holding values of type [A]: it may be
    absent ([undefined]), explicitly [null], or hold a value. *)
Inductive js (A : Type) : Type :=
| undefined
| null
| val (a : A).
Arguments undefined {A}.
Arguments null {A}.
Arguments val {A} a.

(** The primitive operations the scripts use on a value of a given type:
    truthiness, ToString and strict equality. *)
Class Prim (A : Type) : Type := {
  prim_truthy : A -> bool;
  prim_to_string : A -> string;
  prim_eqb : A -> A -> bool
}.

Definition Z_to_string (n : Z) : string := NilZero.string_of_int (Z.to_int n).

#[export] Instance Prim_bool : Prim bool := {
  prim_truthy b := b;
  prim_to_string b := if b then "true" else "false";
  prim_eqb := Bool.eqb
}.

#[export] Instance Prim_number : Prim Z := {
  prim_truthy n := negb (n =? 0);
  prim_to_string := Z_to_string;
  prim_eqb := Z.eqb
}.

#[export] Instance Prim_string : Prim string := {
  prim_truthy s := negb (String.eqb s "");
  prim_to_string s := s;
  prim_eqb := String.eqb
}.

(** [!v] is [negb (truthy v)]. *)
Definition truthy {A} `{Prim A} (v : js A) : bool :=
  match v with
  | val a => prim_truthy a
  | _ => false
  end.

(** ToString, as applied by string concatenation, template literals and
    [parseInt]. *)
Definition ToString {A} `{Prim A} (v : js A) : string :=
  match v with
  | undefined => "undefined"
  | null => "null"
  | val a => prim_to_string a
  end.

(** [a === b] on two values of the same type. *)
Definition strict_eq {A} `{Prim A} (a b : js A) : bool :=
  match a, b with
  | undefined, undefined => true
  | null, null => true
  | val x, val y => prim_eqb x y
  | _, _ => false
  end.

(** A Number produced by [parseInt]: [None] is NaN. *)
Definition number := option Z.

(** [n === v] where [n] is a freshly computed Number; NaN equals nothing. *)
Definition number_strict_eq (n : number) (v : js Z) : bool :=
  match n, v with
  | Some x, val y => x =? y
  | _, _ => false
  end.

(** ** Strings *)

Definition is_lower (c : ascii) : bool :=
  let n := nat_of_ascii c in (97 <=? n)%nat && (n <=? 122)%nat.

Definition upper_char (c : ascii) : ascii :=
  if is_lower c then ascii_of_nat (nat_of_ascii c - 32) else c.

(** [s.toUpperCase()] *)
Fixpoint toUpperCase (s : string) : string :=
  match s with
  | EmptyString => EmptyString
  | String c r => String (upper_char c) (toUpperCase r)
  end.

Fixpoint repeat_char (c : ascii) (n : nat) : string :=
  match n with
  | O => EmptyString
  | S k => String c (repeat_char c k)
  end.

(** [s.padStart(n, c)] for a one-character filler. *)
Definition padStart (s : string) (n : nat) (c : ascii) : string :=
  repeat_char c (n - String.length s) ++ s.

(** Value of a hexadecimal digit, either case. *)
Definition hex_digit (c : ascii) : option Z :=
  let n := Z.of_nat (nat_of_ascii c) in
  if (48 <=? n) && (n <=? 57) then Some (n - 48)
  else if (65 <=? n) && (n <=? 70) then Some (n - 55)
  else if (97 <=? n) && (n <=? 102) then Some (n - 87)
  else None.

(** The lower-case digit [Number.prototype.toString(16)] prints for [d]. *)
Definition hex_digit_char (d : Z) : ascii :=
  if d <? 10 then ascii_of_nat (Z.to_nat (48 + d))
  else ascii_of_nat (Z.to_nat (87 + d)).

Fixpoint hex_digits (fuel : nat) (n : Z) (acc : string) : string :=
  match fuel with
  | O => acc
  | S fuel' =>
      let acc' := String (hex_digit_char (n mod 16)) acc in
      if n / 16 =? 0 then acc' else hex_digits fuel' (n / 16) acc'
  end.

(** [n.toString(16)] for an integral Number [n]. *)
Definition toString16 (n : Z) : string :=
  let digits m := hex_digits (S (Z.to_nat (Z.log2 m))) m "" in
  if n <? 0 then "-" ++ digits (- n) else digits n.

(** White space recognised by [parseInt] and [BigInt] (ASCII part). *)
Definition is_space (c : ascii) : bool :=
  let n := nat_of_ascii c in
  ((9 <=? n)%nat && (n <=? 13)%nat) || (n =? 32)%nat.

Fixpoint skip_spaces (s : string) : string :=
  match s with
  | String c r => if is_space c then skip_spaces r else s
  | EmptyString => s
  end.

Fixpoint all_spaces (s : string) : bool :=
  match s with
  | String c r => is_space c && all_spaces r
  | EmptyString => true
  end.

(** Longest prefix of hexadecimal digits, accumulated most significant digit
    first; [None] when there is no digit at all. *)
Fixpoint hex_prefix (s : string) (acc : option Z) : option Z :=
  match s with
  | String c r =>
      match hex_digit c with
      | Some d => hex_prefix r (Some (16 * match acc with Some a => a | None => 0 end + d))
      | None => acc
      end
  | EmptyString => acc
  end.

Definition strip_0x (s : string) : string :=
  match s with
  | String "0" (String "x" r) => r
  | String "0" (String "X" r) => r
  | _ => s
  end.

(** [parseInt(s, 16)]: leading white space, an optional sign, an optional
    [0x] prefix, then the longest run of hexadecimal digits. *)
Definition parseInt16 (s : string) : number :=
  let s1 := skip_spaces s in
  let '(sign, s2) :=
    match s1 with
    | String "-" r => (-1, r)
    | String "+" r => (1, r)
    | _ => (1, s1)
    end in
  match hex_prefix (strip_0x s2) None with
  | Some m => Some (sign * m)
  | None => None
  end.

(** The digits of a hexadecimal BigInt literal: one digit at least, nothing
    but digits up to optional trailing white space. *)
Fixpoint hex_literal (s : string) (acc : option Z) : option Z :=
  match s with
  | String c r =>
      match hex_digit c with
      | Some d => hex_literal r (Some (16 * match acc with Some a => a | None => 0 end + d))
      | None => if all_spaces s then acc else None
      end
  | EmptyString => acc
  end.

(** ** 32-bit integer operators *)

Definition ToInt32 (n : Z) : Z := (n + 2 ^ 31) mod 2 ^ 32 - 2 ^ 31.

Definition ToInt32_number (n : number) : Z :=
  match n with
  | Some z => ToInt32 z
  | None => 0
  end.

(** [a << k] *)
Definition js_shl (a k : Z) : Z := ToInt32 (Z.shiftl (ToInt32 a) (k mod 32)).

(** [a | b] *)
Definition js_or (a b : Z) : Z := ToInt32 (Z.lor (ToInt32 a) (ToInt32 b)).

(** [a >>> 0] *)
Definition js_ushr0 (a : Z) : Z := a mod 2 ^ 32.

(** ** Node-RED context stores and messages *)

(** Keys of the flow context used by the address-claim nodes. *)
Record flow_ctx : Type := {
  claim_in_progress : js bool;
  claiming_address : js Z;
  our_device_name : js string;
  used_addresses : js (list Z)
}.

(** Keys of the global context. *)
Record global_ctx : Type := {
  my_persistent_rvc_id : js string;
  rvc_source_address : js Z
}.

(** Keys of the request node's own context. *)
Record node_ctx : Type := {
  address_attempt : js Z
}.

Record store : Type := {
  flow : flow_ctx;
  global : global_ctx;
  context : node_ctx
}.

(** The decoded ADDRESS_CLAIMED frame delivered to the monitor. *)
Record frame : Type := {
  dataPayload : js string;
  sourceAddress : js string
}.

Inductive payload_t : Type :=
| Decoded (f : frame)
| Text (s : string).

Record msg : Type := {
  msg_topic : js string;
  msg_payload : js payload_t;
  msg_claiming_address : js Z;
  msg_reset : js bool
}.

(** What a function node returns: [null], one message, or one message per
    output port. *)
Inductive returned : Type :=
| return_null
| return_msg (m : msg)
| return_array (ms : list msg).

Inductive scope : Type := Flow | Global | Context.

(** Observable side effects of a node, in program order. *)
Inductive effect : Type :=
| Warn (text : string)
| Error (text : string)
| Log (text : string)
| Assign (sc : scope) (key : string).

Inductive exn : Type := TypeError | SyntaxError.

Inductive completion (A : Type) : Type :=
| Normal (a : A)
| Throw (e : exn).
Arguments Normal {A} a.
Arguments Throw {A} e.

(** ** The script monad: context stores, thrown exceptions, effect log *)

Definition M (A : Type) : Type := store -> completion A * store * list effect.

Definition ret {A} (a : A) : M A := fun s => (Normal a, s, []).

Definition throw {A} (e : exn) : M A := fun s => (Throw e, s, []).

Definition bind {A B} (m : M A) (k : A -> M B) : M B :=
  fun s =>
    match m s with
    | (Normal a, s1, e1) =>
        match k a s1 with
        | (c, s2, e2) => (c, s2, (e1 ++ e2)%list)
        end
    | (Throw e, s1, e1) => (Throw e, s1, e1)
    end.

Declare Scope script_scope.
Delimit Scope script_scope with script.
Notation "x <- c1 ;; c2" := (bind c1 (fun x => c2))
  (at level 61, c1 at next level, right associativity) : script_scope.
Notation "c1 ;; c2" := (bind c1 (fun _ => c2))
  (at level 61, right associativity) : script_scope.
Open Scope script_scope.

Definition emit (e : effect) : M unit := fun s => (Normal tt, s, [e]).

Definition node_warn (text : string) : M unit := emit (Warn text).
Definition node_error (text : string) : M unit := emit (Error text).
Definition node_log (text : string) : M unit := emit (Log text).

Definition flow_get {A} (key : flow_ctx -> A) : M A :=
  fun s => (Normal (key (flow s)), s, []).
Definition global_get {A} (key : global_ctx -> A) : M A :=
  fun s => (Normal (key (global s)), s, []).
Definition context_get {A} (key : node_ctx -> A) : M A :=
  fun s => (Normal (key (context s)), s, []).

Definition flow_set (key : string) (upd : flow_ctx -> flow_ctx) : M unit :=
  fun s => (Normal tt,
            {| flow := upd (flow s); global := global s; context := context s |},
            [Assign Flow key]).
Definition global_set (key : string) (upd : global_ctx -> global_ctx) : M unit :=
  fun s => (Normal tt,
            {| flow := flow s; global := upd (global s); context := context s |},
            [Assign Global key]).
Definition context_set (key : string) (upd : node_ctx -> node_ctx) : M unit :=
  fun s => (Normal tt,
            {| flow := flow s; global := global s; context := upd (context s) |},
            [Assign Context key]).

Definition set_claim_in_progress (v : js bool) : M unit :=
  flow_set "claim_in_progress" (fun f =>
    {| claim_in_progress := v; claiming_address := claiming_address f;
       our_device_name := our_device_name f; used_addresses := used_addresses f |}).
Definition set_claiming_address (v : js Z) : M unit :=
  flow_set "claiming_address" (fun f =>
    {| claim_in_progress := claim_in_progress f; claiming_address := v;
       our_device_name := our_device_name f; used_addresses := used_addresses f |}).
Definition set_our_device_name (v : js string) : M unit :=
  flow_set "our_device_name" (fun f =>
    {| claim_in_progress := claim_in_progress f; claiming_address := claiming_address f;
       our_device_name := v; used_addresses := used_addresses f |}).
Definition set_my_persistent_rvc_id (v : js string) : M unit :=
  global_set "my_persistent_rvc_id" (fun g =>
    {| my_persistent_rvc_id := v; rvc_source_address := rvc_source_address g |}).
Definition set_rvc_source_address (v : js Z) : M unit :=
  global_set "rvc_source_address" (fun g =>
    {| my_persistent_rvc_id := my_persistent_rvc_id g; rvc_source_address := v |}).
Definition set_address_attempt (v : js Z) : M unit :=
  context_set "address_attempt" (fun _ => {| address_attempt := v |}).

(** Property access [p.dataPayload] / [p.sourceAddress] on [msg.payload]:
    a TypeError on [undefined] and [null], [undefined] on a string. *)
Definition get_dataPayload (p : js payload_t) : M (js string) :=
  match p with
  | val (Decoded f) => ret (dataPayload f)
  | val (Text _) => ret undefined
  | _ => throw TypeError
  end.
Definition get_sourceAddress (p : js payload_t) : M (js string) :=
  match p with
  | val (Decoded f) => ret (sourceAddress f)
  | val (Text _) => ret undefined
  | _ => throw TypeError
  end.

(** Method call [v.toUpperCase()]: a TypeError unless [v] is a string. *)
Definition call_toUpperCase (v : js string) : M string :=
  match v with
  | val s => ret (toUpperCase s)
  | _ => throw TypeError
  end.

(** [BigInt("0x" + digits)]: a SyntaxError unless the literal is well formed. *)
Definition BigInt_0x (digits : string) : M Z :=
  match hex_literal digits None with
  | Some n => ret n
  | None => throw SyntaxError
  end.

(** ** src/functions/address_claim_request.js *)

Definition STARTING_ADDRESS : Z := 223.
Definition MIN_ADDRESS : Z := 208.

(** [usedAddresses.has(a)] *)
Definition set_has (usedAddresses : list Z) (a : Z) : bool :=
  existsb (Z.eqb a) usedAddresses.

(** Step 1: the manual reset command. *)
Definition handle_reset (m : msg) : M unit :=
  if strict_eq (msg_topic m) (val "reset_device_id") then
    set_my_persistent_rvc_id null ;;
    set_address_attempt null ;;
    node_warn "Persistent DEVICE_NAME cleared. Generating a new one and starting claim..."
  else ret tt.

(** Step 2: the persistent DEVICE_NAME; [randomSerial] is the value of
    [Math.floor(Math.random() * 0x1FFFFF)] should it be drawn. *)
Definition get_device_name (randomSerial : Z) : M string :=
  uniqueId <- global_get my_persistent_rvc_id ;;
  match uniqueId with
  | val (String c r) => ret (String c r)
  | _ =>
      let randomSerialHex := toUpperCase (padStart (toString16 randomSerial) 6 "0") in
      let uniqueId := "8000000000" ++ randomSerialHex in
      set_my_persistent_rvc_id (val uniqueId) ;;
      ret uniqueId
  end.

(** The loop [while (usedAddresses.has(addressToTry) && addressToTry >= MIN_ADDRESS)]. *)
Fixpoint skip_used (fuel : nat) (usedAddresses : list Z) (addressToTry : Z) : M Z :=
  match fuel with
  | O => ret addressToTry
  | S fuel' =>
      if set_has usedAddresses addressToTry && (MIN_ADDRESS <=? addressToTry) then
        let addressToTry := addressToTry - 1 in
        node_warn ("Address " ++ Z_to_string (addressToTry + 1)
                   ++ " is known to be in use, skipping to " ++ Z_to_string addressToTry) ;;
        skip_used fuel' usedAddresses addressToTry
      else ret addressToTry
  end.

(** Step 3 up to the end of the loop: the candidate address. *)
Definition select_address (m : msg) : M Z :=
  used <- flow_get used_addresses ;;
  let usedAddresses := match used with val l => l | _ => [] end in
  attempt <- context_get address_attempt ;;
  let addressToTry :=
    match attempt with
    | val n => if n =? 0 then STARTING_ADDRESS else n
    | _ => STARTING_ADDRESS
    end in
  addressToTry <-
    (if strict_eq (msg_topic m) (val "address_claim_retry") then
       let addressToTry := addressToTry - 1 in
       node_warn ("Lost address conflict. Trying next address: " ++ Z_to_string addressToTry) ;;
       ret addressToTry
     else ret addressToTry) ;;
  skip_used (Z.to_nat (addressToTry - MIN_ADDRESS + 1)) usedAddresses addressToTry.

(** Step 4: the CAN identifier, eight upper-case hexadecimal digits. *)
Definition claim_can_id (addressToTry : Z) : string :=
  let DGN := "EE00" in
  let priority := 6 in
  let canIdNum :=
    js_or (js_or (js_shl priority 26) (js_shl (ToInt32_number (parseInt16 DGN)) 8))
          addressToTry in
  toUpperCase (padStart (toString16 canIdNum) 8 "0").

Definition address_claim_request (randomSerial : Z) (m : msg) : M returned :=
  handle_reset m ;;
  DEVICE_NAME <- get_device_name randomSerial ;;
  addressToTry <- select_address m ;;
  if addressToTry <? MIN_ADDRESS then
    node_error ("Exhausted all addresses in the valid range ("
                ++ Z_to_string STARTING_ADDRESS ++ "-" ++ Z_to_string MIN_ADDRESS
                ++ "). Address claiming failed.") ;;
    set_claim_in_progress (val false) ;;
    ret return_null
  else
    set_address_attempt (val addressToTry) ;;
    let canIdHex := claim_can_id addressToTry in
    let dataPayload := DEVICE_NAME in
    let canMessage := canIdHex ++ "#" ++ dataPayload in
    set_claiming_address (val addressToTry) ;;
    set_claim_in_progress (val true) ;;
    set_our_device_name (val DEVICE_NAME) ;;
    node_log ("Attempting to claim address " ++ Z_to_string addressToTry
              ++ " (0x" ++ toUpperCase (toString16 addressToTry) ++ ")") ;;
    ret (return_msg {| msg_topic := val "can/send";
                       msg_payload := val (Text canMessage);
                       msg_claiming_address := val addressToTry;
                       msg_reset := msg_reset m |}).

(** ** src/functions/address_claim_monitor.js *)

Definition retryMsg : msg :=
  {| msg_topic := val "address_claim_retry"; msg_payload := undefined;
     msg_claiming_address := undefined; msg_reset := undefined |}.

Definition resetTimerMsg : msg :=
  {| msg_topic := undefined; msg_payload := undefined;
     msg_claiming_address := undefined; msg_reset := val true |}.

Definition address_claim_monitor (m : msg) : M returned :=
  claimInProgress <- flow_get claim_in_progress ;;
  if negb (truthy claimInProgress) then ret return_null
  else
    claimingAddress <- flow_get claiming_address ;;
    ourDeviceName <- flow_get our_device_name ;;
    rawName <- get_dataPayload (msg_payload m) ;;
    competitorName <- call_toUpperCase rawName ;;
    rawAddress <- get_sourceAddress (msg_payload m) ;;
    let sourceAddressInt := parseInt16 (ToString rawAddress) in
    if number_strict_eq sourceAddressInt claimingAddress then
      if strict_eq (val competitorName) ourDeviceName then ret return_null
      else
        node_warn ("Address " ++ ToString claimingAddress ++ " conflict detected!") ;;
        node_warn ("Our NAME: " ++ ToString ourDeviceName
                   ++ ", Competitor NAME: " ++ competitorName) ;;
        ourNameValue <- BigInt_0x (ToString ourDeviceName) ;;
        competitorNameValue <- BigInt_0x competitorName ;;
        if ourNameValue <? competitorNameValue then
          node_warn ("We WIN the conflict. Continuing to claim address "
                     ++ ToString claimingAddress) ;;
          ret return_null
        else
          node_warn "We LOSE the conflict. Cancelling timer and trying next address." ;;
          set_claim_in_progress (val false) ;;
          ret (return_array [retryMsg; resetTimerMsg])
    else ret return_null.

(** ** src/functions/address_claim_success.js *)

Definition address_claim_success (m : msg) : M returned :=
  let claimedAddress := msg_claiming_address m in
  match claimedAddress with
  | val _ =>
      claimInProgress <- flow_get claim_in_progress ;;
      if negb (truthy claimInProgress) then
        node_warn ("Timer expired for address " ++ ToString claimedAddress
                   ++ ", but claim was cancelled - ignoring") ;;
        ret return_null
      else
        currentClaimingAddress <- flow_get claiming_address ;;
        if negb (strict_eq currentClaimingAddress claimedAddress) then
          node_warn ("Timer expired for address " ++ ToString claimedAddress
                     ++ ", but we're now trying " ++ ToString currentClaimingAddress
                     ++ " - ignoring stale timer") ;;
          ret return_null
        else
          set_rvc_source_address claimedAddress ;;
          set_claim_in_progress (val false) ;;
          set_claiming_address null ;;
          set_our_device_name null ;;
          ret return_null
  | _ =>
      node_error "No address to claim - timer message missing claiming_address" ;;
      ret return_null
  end.

(** ** src/functions/unique_autofill.js, "RV-C Store Claimed Address Function" *)

Definition addressClaimData : string := "C3A1F00700000000".

Definition store_can_id (claimedAddress : Z) : string :=
  let priority := 6 in
  let dgnHigh := "EE" in
  let dgnLow := "00" in
  let priorityBits := js_ushr0 (js_shl priority 26) in
  let dgnHighBits := js_ushr0 (js_shl (ToInt32_number (parseInt16 dgnHigh)) 18) in
  let dgnLowBits := js_ushr0 (js_shl (ToInt32_number (parseInt16 dgnLow)) 8) in
  let sourceAddressBits := claimedAddress in
  let canId :=
    js_ushr0 (js_or (js_or (js_or priorityBits dgnHighBits) dgnLowBits) sourceAddressBits) in
  toUpperCase (padStart (toString16 canId) 8 "0").

Definition store_claimed_address (m : msg) : M returned :=
  claimInProgress <- flow_get claim_in_progress ;;
  if negb (truthy claimInProgress) then
    node_warn "Claim already aborted due to conflict" ;;
    ret return_null
  else
    claimedAddress <- flow_get claiming_address ;;
    match claimedAddress with
    | val a =>
        let canIdHex := store_can_id a in
        let canMessage := canIdHex ++ "#" ++ addressClaimData in
        set_rvc_source_address claimedAddress ;;
        set_claim_in_progress (val false) ;;
        set_claiming_address null ;;
        node_warn ("Successfully claimed address " ++ ToString claimedAddress
                   ++ " (0x" ++ toUpperCase (toString16 a) ++ ")") ;;
        node_warn ("Address stored to global.rvc_source_address: "
                   ++ ToString claimedAddress) ;;
        ret (return_msg {| msg_topic := val "can/tx";
                           msg_payload := val (Text canMessage);
                           msg_claiming_address := msg_claiming_address m;
                           msg_reset := msg_reset m |})
    | _ =>
        node_error "No address to claim - claiming process not started properly" ;;
        ret return_null
    end.

(** ** Device identities (NAMEs) *)

Definition is_hex_upper (c : ascii) : bool :=
  let n := nat_of_ascii c in
  ((48 <=? n)%nat && (n <=? 57)%nat) || ((65 <=? n)%nat && (n <=? 70)%nat).

Fixpoint all_hex_upper (s : string) : bool :=
  match s with
  | String c r => is_hex_upper c && all_hex_upper r
  | EmptyString => true
  end.

(** A NAME: sixteen upper-case hexadecimal characters. *)
Definition is_name (s : string) : bool :=
  (String.length s =? 16)%nat && all_hex_upper s.

(** A NAME as the request node generates it: prefix 80 00 00 00 00. *)
Definition is_device_name (s : string) : bool :=
  is_name s && String.prefix "8000000000" s.

Definition digit_value (c : ascii) : Z :=
  match hex_digit c with
  | Some d => d
  | None => 0
  end.

(** The bytes a hexadecimal string denotes, two characters per byte. *)
Fixpoint name_bytes (s : string) : list Z :=
  match s with
  | String h (String l r) => (16 * digit_value h + digit_value l) :: name_bytes r
  | _ => []
  end.

(** A byte sequence read as an unsigned big-endian integer. *)
Definition be_step (acc b : Z) : Z := 256 * acc + b.

Definition be_uint (bytes : list Z) : Z := fold_left be_step bytes 0.

Definition name_value (s : string) : Z := be_uint (name_bytes s).

(** ** Events and runs *)

(** One invocation of a node: a message into the request node (start,
    retry or reset), a decoded claim frame into the monitor, the timer
    message into either success script. *)
Inductive event : Type :=
| Trigger (randomSerial : Z) (m : msg)
| ClaimFrame (m : msg)
| TimerFired (m : msg)
| TimerFiredStore (m : msg).

Definition handle (e : event) : M returned :=
  match e with
  | Trigger randomSerial m => address_claim_request randomSerial m
  | ClaimFrame m => address_claim_monitor m
  | TimerFired m => address_claim_success m
  | TimerFiredStore m => store_claimed_address m
  end.

Definition value_of {A} (r : completion A * store * list effect) : completion A :=
  fst (fst r).
Definition store_of {A} (r : completion A * store * list effect) : store :=
  snd (fst r).
Definition effects_of {A} (r : completion A * store * list effect) : list effect :=
  snd r.

(** [Math.floor(Math.random() * 0x1FFFFF)] lies in [0, 0x1FFFFF). *)
Definition event_ok (e : event) : Prop :=
  match e with
  | Trigger randomSerial _ => 0 <= randomSerial < 0x1FFFFF
  | _ => True
  end.

(** Events that occur without an operator: frames and timer expiries. *)
Definition automatic (e : event) : Prop :=
  match e with
  | Trigger _ _ => False
  | _ => True
  end.

Fixpoint run (es : list event) (s : store) : store :=
  match es with
  | [] => s
  | e :: es' => run es' (store_of (handle e s))
  end.

Fixpoint outputs (es : list event) (s : store) : list (completion returned) :=
  match es with
  | [] => []
  | e :: es' => value_of (handle e s) :: outputs es' (store_of (handle e s))
  end.

(** The claim frame a request returned, if any: its address. *)
Definition broadcast_of (c : completion returned) : option Z :=
  match c with
  | Normal (return_msg m) =>
      if strict_eq (msg_topic m) (val "can/send") then
        match msg_claiming_address m with
        | val a => Some a
        | _ => None
        end
      else None
  | _ => None
  end.

(** Whether a node wrote the committed source address. *)
Definition commits (effs : list effect) : bool :=
  existsb (fun e =>
             match e with
             | Assign Global key => String.eqb key "rvc_source_address"
             | _ => false
             end) effs.

(** The stores together with the history the invariants speak about: the
    address of the latest claim broadcast, and whether the committed address
    was written since (that is, by the claim cycle that broadcast opened). *)
Record arbitration : Type := {
  st : store;
  last_broadcast : option Z;
  committed_in_cycle : bool
}.

Definition arb_step (e : event) (a : arbitration) : arbitration :=
  let r := handle e (st a) in
  match broadcast_of (value_of r) with
  | Some x => {| st := store_of r; last_broadcast := Some x; committed_in_cycle := false |}
  | None => {| st := store_of r; last_broadcast := last_broadcast a;
               committed_in_cycle := committed_in_cycle a || commits (effects_of r) |}
  end.

(** Process start: nothing claimed or in progress; the durable identity is
    absent or one generated earlier. *)
Definition initial (s : store) : Prop :=
  claim_in_progress (flow s) = undefined /\
  claiming_address (flow s) = undefined /\
  our_device_name (flow s) = undefined /\
  address_attempt (context s) = undefined /\
  (my_persistent_rvc_id (global s) = undefined \/
   exists n, my_persistent_rvc_id (global s) = val n /\ is_device_name n = true).

Inductive reachable : arbitration -> Prop :=
| reachable_init s :
    initial s ->
    reachable {| st := s; last_broadcast := None; committed_in_cycle := false |}
| reachable_step a e :
    reachable a -> event_ok e -> reachable (arb_step e a).

(** ** The Address Selector as the specification words it *)

Fixpoint spec_skip (fuel : nat) (usedSet : list Z) (candidate : Z) : Z :=
  match fuel with
  | O => candidate
  | S fuel' =>
      if set_has usedSet candidate && (MIN_ADDRESS <=? candidate)
      then spec_skip fuel' usedSet (candidate - 1)
      else candidate
  end.

(** "If afterLoss is false and no attempt counter exists, start at
    STARTING_ADDRESS; otherwise decrement the previous candidate by 1.  While
    the candidate is in usedSet and still >= MIN_ADDRESS, keep decrementing."
    With no counter the previous candidate is taken to be STARTING_ADDRESS. *)
Definition nextCandidate_spec (previous : option Z) (usedSet : list Z) (afterLoss : bool) : Z :=
  let candidate :=
    match previous, afterLoss with
    | None, false => STARTING_ADDRESS
    | None, true => STARTING_ADDRESS - 1
    | Some p, _ => p - 1
    end in
  spec_skip (Z.to_nat (candidate - MIN_ADDRESS + 1)) usedSet candidate.

(** Sample stores and messages. *)
Definition empty_store : store :=
  {| flow := {| claim_in_progress := undefined; claiming_address := undefined;
                our_device_name := undefined; used_addresses := undefined |};
     global := {| my_persistent_rvc_id := undefined; rvc_source_address := undefined |};
     context := {| address_attempt := undefined |} |}.

Definition empty_msg : msg :=
  {| msg_topic := undefined; msg_payload := undefined;
     msg_claiming_address := undefined; msg_reset := undefined |}.

Definition frame_msg (address name : string) : msg :=
  {| msg_topic := undefined;
     msg_payload := val (Decoded {| dataPayload := val name; sourceAddress := val address |});
     msg_claiming_address := undefined; msg_reset := undefined |}.

Definition timer_msg (token : Z) : msg :=
  {| msg_topic := val "can/send"; msg_payload := undefined;
     msg_claiming_address := val token; msg_reset := undefined |}.

(** ** Vocabulary of the statements *)

(** The context writes among a node's effects, in order. *)
Definition assignments (effs : list effect) : list (scope * string) :=
  flat_map (fun e => match e with Assign sc key => [(sc, key)] | _ => [] end) effs.

(** The node whose stores are [s] has a claim for address [a] in flight
    under identity [name]. *)
Definition contending (s : store) (a : Z) (name : string) : Prop :=
  truthy (claim_in_progress (flow s)) = true /\
  claiming_address (flow s) = val a /\
  our_device_name (flow s) = val name.

(** [m] is a decoded claim frame for address [a] carrying identity [name]. *)
Definition announces (m : msg) (a : Z) (name : string) : Prop :=
  exists f raw,
    msg_payload m = val (Decoded f) /\
    dataPayload f = val raw /\ toUpperCase raw = name /\
    parseInt16 (ToString (sourceAddress f)) = Some a.

(** Store [s] with the claiming flag cleared and nothing else touched. *)
Definition claim_cleared (s : store) : store :=
  {| flow := {| claim_in_progress := val false;
                claiming_address := claiming_address (flow s);
                our_device_name := our_device_name (flow s);
                used_addresses := used_addresses (flow s) |};
     global := global s;
     context := context s |}.

(** The monitor absorbs [m]: nothing returned, nothing written. *)
Definition keeps_claiming (m : msg) (s : store) : Prop :=
  value_of (address_claim_monitor m s) = Normal return_null /\
  store_of (address_claim_monitor m s) = s /\
  assignments (effects_of (address_claim_monitor m s)) = [].

(** The monitor gives up on [m]: the flag is cleared and the retry message
    (with the timer reset) is returned. *)
Definition retries (m : msg) (s : store) : Prop :=
  value_of (address_claim_monitor m s) = Normal (return_array [retryMsg; resetTimerMsg]) /\
  store_of (address_claim_monitor m s) = claim_cleared s /\
  assignments (effects_of (address_claim_monitor m s)) = [(Flow, "claim_in_progress")].

(** A store with a claim for [a] in flight under [name]. *)
Definition claiming_store (a : Z) (name : string) : store :=
  {| flow := {| claim_in_progress := val true; claiming_address := val a;
                our_device_name := val name; used_addresses := undefined |};
     global := {| my_persistent_rvc_id := val name; rvc_source_address := undefined |};
     context := {| address_attempt := val a |} |}.

(** Store [s] after a commit of [a] by [address_claim_success]. *)
Definition committed (s : store) (a : Z) : store :=
  {| flow := {| claim_in_progress := val false;
                claiming_address := null;
                our_device_name := null;
                used_addresses := used_addresses (flow s) |};
     global := {| my_persistent_rvc_id := my_persistent_rvc_id (global s);
                  rvc_source_address := val a |};
     context := context s |}.

(** Store [s] after a commit of [a] by [store_claimed_address], which leaves
    [our_device_name] in place. *)
Definition committed_by_store (s : store) (a : Z) : store :=
  {| flow := {| claim_in_progress := val false;
                claiming_address := null;
                our_device_name := our_device_name (flow s);
                used_addresses := used_addresses (flow s) |};
     global := {| my_persistent_rvc_id := my_persistent_rvc_id (global s);
                  rvc_source_address := val a |};
     context := context s |}.

(** A node run that returns nothing and writes nothing. *)
Definition no_op {A} (r : completion A * store * list effect) (v : A) (s : store) : Prop :=
  value_of r = Normal v /\ store_of r = s /\ assignments (effects_of r) = [].

(** The candidate the request node starts from: the persisted attempt
    counter, or [STARTING_ADDRESS] without one, less one on a retry. *)
Definition used_set (s : store) : list Z :=
  match used_addresses (flow s) with
  | val l => l
  | _ => []
  end.

Definition is_retry (m : msg) : bool :=
  strict_eq (msg_topic m) (val "address_claim_retry").

Definition previous_candidate (s : store) : Z :=
  match address_attempt (context s) with
  | val n => if n =? 0 then STARTING_ADDRESS else n
  | _ => STARTING_ADDRESS
  end.

Definition start_candidate (m : msg) (s : store) : Z :=
  if is_retry m then previous_candidate s - 1 else previous_candidate s.

(** A store whose attempt counter is 220, with no address known in use. *)
Definition attempt_220 : store :=
  {| flow := {| claim_in_progress := val false; claiming_address := val 220;
                our_device_name := val "8000000000ABCDEF"; used_addresses := val [] |};
     global := {| my_persistent_rvc_id := val "8000000000ABCDEF";
                  rvc_source_address := undefined |};
     context := {| address_attempt := val 220 |} |}.

(** The candidate [address_claim_request] arrives at, after its reset and
    identity steps. *)
Definition selected_candidate (randomSerial : Z) (m : msg) (s : store) : completion Z :=
  value_of ((handle_reset m ;; _ <- get_device_name randomSerial ;; select_address m) s).

(** Store [s] after a claim for [a] was broadcast under [name]. *)
Definition broadcast_store (s : store) (a : Z) (name : string) : store :=
  {| flow := {| claim_in_progress := val true;
                claiming_address := val a;
                our_device_name := val name;
                used_addresses := used_addresses (flow s) |};
     global := global s;
     context := {| address_attempt := val a |} |}.

(** The message [address_claim_request] returns with its claim frame. *)
Definition claim_msg (m : msg) (a : Z) (name : string) : msg :=
  {| msg_topic := val "can/send";
     msg_payload := val (Text (claim_can_id a ++ "#" ++ name));
     msg_claiming_address := val a;
     msg_reset := msg_reset m |}.

Definition is_reset (m : msg) : bool :=
  strict_eq (msg_topic m) (val "reset_device_id").

(** The identity a fresh draw of [randomSerial] yields. *)
Definition generated_name (randomSerial : Z) : string :=
  "8000000000" ++ toUpperCase (padStart (toString16 randomSerial) 6 "0").

(** Scenario C: address 208 was just lost, every address above is spent. *)
Definition lost_208 : store :=
  {| flow := {| claim_in_progress := val false; claiming_address := val 208;
                our_device_name := val "8000000000ABCDEF"; used_addresses := undefined |};
     global := {| my_persistent_rvc_id := val "8000000000ABCDEF";
                  rvc_source_address := undefined |};
     context := {| address_attempt := val 208 |} |}.

(** ** Invariants of the arbitration *)

Definition name_ok (v : js string) : Prop :=
  match v with
  | val n => is_device_name n = true
  | _ => True
  end.

Definition address_ok (v : js Z) : Prop :=
  match v with
  | val n => MIN_ADDRESS <= n <= STARTING_ADDRESS
  | _ => True
  end.

Record inv (a : arbitration) : Prop := {
  inv_id : name_ok (my_persistent_rvc_id (global (st a)));
  inv_name : name_ok (our_device_name (flow (st a)));
  inv_attempt : address_ok (address_attempt (context (st a)));
  inv_claiming :
    truthy (claim_in_progress (flow (st a))) = true ->
    (exists n, our_device_name (flow (st a)) = val n) /\
    (exists x, claiming_address (flow (st a)) = val x);
  inv_last :
    forall x, claiming_address (flow (st a)) = val x -> last_broadcast a = Some x;
  inv_range :
    forall x, last_broadcast a = Some x -> MIN_ADDRESS <= x <= STARTING_ADDRESS;
  inv_cycle :
    truthy (claim_in_progress (flow (st a))) = true -> committed_in_cycle a = false;
  inv_committed :
    committed_in_cycle a = true ->
    exists x, rvc_source_address (global (st a)) = val x /\ last_broadcast a = Some x
}.

(** Runs of the instrumented state. *)
Definition arb_start (s : store) : arbitration :=
  {| st := s; last_broadcast := None; committed_in_cycle := false |}.

Fixpoint arb_run (es : list event) (a : arbitration) : arbitration :=
  match es with
  | [] => a
  | e :: es' => arb_run es' (arb_step e a)
  end.

(** Scenario A up to the broadcast: a fresh node claims 223 under the
    identity drawn for serial 0x0ABCDE. *)
Definition claiming_223 : arbitration :=
  arb_run [Trigger 0xABCDE empty_msg] (arb_start empty_store).

(** A commit followed by a new trigger: the earlier committed address stays
    in the global context while the next claim is in flight. *)
Definition reclaim_after_commit : arbitration :=
  arb_run [Trigger 0xABCDE empty_msg; TimerFired (timer_msg 223); Trigger 0 empty_msg]
          (arb_start empty_store).

Definition is_timer (e : event) : Prop :=
  match e with
  | TimerFired _ | TimerFiredStore _ => True
  | _ => False
  end.

(** Scenario B up to the second broadcast: claim 223, lose it to
    7000000000112233, claim 222.  No timer has fired yet. *)
Definition lost_then_retry : list event :=
  [Trigger 0xABCDE empty_msg;
   ClaimFrame (frame_msg "DF" "7000000000112233");
   Trigger 0 retryMsg].

(** A decoded frame whose identity bytes are missing. *)
Definition frame_without_identity : msg :=
  {| msg_topic := undefined;
     msg_payload := val (Decoded {| dataPayload := undefined; sourceAddress := val "DF" |});
     msg_claiming_address := undefined; msg_reset := undefined |}.

(** A decoded frame whose source address is missing. *)
Definition frame_without_address : msg :=
  {| msg_topic := undefined;
     msg_payload := val (Decoded {| dataPayload := val "7000000000112233";
                                    sourceAddress := undefined |});
     msg_claiming_address := undefined; msg_reset := undefined |}.

(** A node restarted with the durable identity 8000000000ABCDEF. *)
Definition restarted_store : store :=
  {| flow := {| claim_in_progress := undefined; claiming_address := undefined;
                our_device_name := undefined; used_addresses := undefined |};
     global := {| my_persistent_rvc_id := val "8000000000ABCDEF";
                  rvc_source_address := undefined |};
     context := {| address_attempt := undefined |} |}.

(** ** Vocabulary of the further properties *)

(** A message into the request node that is the reset command. *)
Definition is_reset_event (e : event) : Prop :=
  match e with
  | Trigger _ m => is_reset m = true
  | _ => False
  end.

(** A retry message into the request node. *)
Definition is_retry_event (e : event) : Prop :=
  match e with
  | Trigger _ m => is_retry m = true
  | _ => False
  end.

(** In store [s] a retry finds no address left: going down from one below
    the previous candidate, every address is in use until MIN_ADDRESS is
    passed. *)
Definition retry_exhausted (s : store) : Prop :=
  exists c,
    c < MIN_ADDRESS /\ c <= previous_candidate s - 1 /\
    (forall x, c < x <= previous_candidate s - 1 -> In x (used_set s) /\ MIN_ADDRESS <= x).

(** Sixteen retries in a row. *)
Definition sixteen_retries : list event :=
  map (fun r => Trigger r retryMsg) [0; 1; 2; 3; 4; 5; 6; 7; 8; 9; 10; 11; 12; 13; 14; 15].

(** ** src/functions/unique_autofill.js, first script (instance de-duplication) *)

(** [msg.payload] of a decoded status message, as far as the script reads it. *)
Record discovery_payload : Type := {
  instance : js string
}.

Record discovery_msg : Type := {
  payload : js discovery_payload
}.

(** [uniqueAutofill.includes(name)] *)
Definition includes (uniqueAutofill : list string) (name : string) : bool :=
  existsb (String.eqb name) uniqueAutofill.

(** The script against the flow key ["uniqueAutofill"]: it returns the
    completion and the key's new value.  The array it pushes to is the one
    stored under the key, so the push and the [flow.set] leave the same
    list. *)
Definition unique_autofill (m : discovery_msg) (key : js (list string))
  : completion (option discovery_msg) * js (list string) :=
  let uniqueAutofill := match key with val l => l | _ => [] end in
  match payload m with
  | val p =>
      let instanceName := instance p in
      match instanceName with
      | val (String c r as name) =>
          if negb (includes uniqueAutofill name) then
            let uniqueAutofill := (uniqueAutofill ++ [name])%list in
            (Normal (Some {| payload := val {| instance := instanceName |} |}),
             val uniqueAutofill)
          else (Normal None, key)
      | _ => (Normal None, key)
      end
  | _ => (Throw TypeError, key)
  end.

(** The instances recorded under the key. *)
Definition seen (key : js (list string)) : list string :=
  match key with
  | val l => l
  | _ => []
  end.

Fixpoint unique_autofill_run (ms : list discovery_msg) (key : js (list string))
  : list (completion (option discovery_msg)) * js (list string) :=
  match ms with
  | [] => ([], key)
  | m :: ms' =>
      let '(c, key1) := unique_autofill m key in
      let '(cs, key2) := unique_autofill_run ms' key1 in
      (c :: cs, key2)
  end.

(** The instance names of the messages a run passed on. *)
Fixpoint emitted (cs : list (completion (option discovery_msg))) : list string :=
  match cs with
  | [] => []
  | Normal (Some {| payload := val {| instance := val name |} |}) :: cs' =>
      name :: emitted cs'
  | _ :: cs' => emitted cs'
  end.

Definition status_msg (name : string) : discovery_msg :=
  {| payload := val {| instance := val name |} |}.

(** ** src/functions/filter_outgoing_can.js *)

(** [a & b] *)
Definition js_and (a b : Z) : Z := ToInt32 (Z.land (ToInt32 a) (ToInt32 b)).

(** [s.split(sep)] for a one-character separator. *)
Fixpoint split_on (sep : ascii) (s : string) : list string :=
  match s with
  | EmptyString => [EmptyString]
  | String c r =>
      if Ascii.eqb c sep then EmptyString :: split_on sep r
      else match split_on sep r with
           | h :: t => String c h :: t
           | [] => [String c EmptyString]
           end
  end.

(** [parseInt16] is exact, where JavaScript rounds an identifier of more
    than 13 hexadecimal digits to a double before [& 0xFF]. *)
Definition filter_outgoing_can (m : msg) : M returned :=
  let originalMessage := msg_payload m in
  match originalMessage with
  | val (Text (String c r as text)) =>
      let parts := split_on "#" text in
      if negb (List.length parts =? 2)%nat then ret return_null
      else
        let canId := nth 0 parts "" in
        let canIdNum := parseInt16 canId in
        match canIdNum with
        | None => ret return_null
        | Some n =>
            let sourceAddress := js_and n 0xFF in
            ourSourceAddress <- global_get rvc_source_address ;;
            if number_strict_eq (Some sourceAddress) ourSourceAddress
            then ret (return_msg m)
            else ret return_null
        end
  | _ => ret return_null
  end.

(** ** The command encoders that send from the committed address *)

(** A message from the Home Assistant command parser. *)
Record command_msg : Type := {
  cmd_topic : js string;
  cmd_payload : js string;
  command : js string
}.

(** [global.get("rvc_source_address") || 254] *)
Definition SOURCE_ADDRESS : M Z :=
  v <- global_get rvc_source_address ;;
  ret (match v with
       | val n => if n =? 0 then 254 else n
       | _ => 254
       end).

(** [dataBytes.map(byte => byte.toString(16).padStart(2, '0')).join('')] *)
Definition data_hex (dataBytes : list Z) : string :=
  String.concat "" (map (fun byte => padStart (toString16 byte) 2 "0") dataBytes).

(** [new Array(8).fill(0xFF)] with [dataBytes[0] = v]. *)
Definition command_bytes (v : Z) : list Z :=
  v :: [0xFF; 0xFF; 0xFF; 0xFF; 0xFF; 0xFF; 0xFF].

(** [(PRIORITY << 26) | (dgnInt << 8) | SOURCE_ADDRESS], printed. *)
Definition can_id_hex (PRIORITY : Z) (DGN : string) (SOURCE_ADDRESS : Z) : string :=
  let dgnInt := ToInt32_number (parseInt16 DGN) in
  let canIdInt := js_or (js_or (js_shl PRIORITY 26) (js_shl dgnInt 8)) SOURCE_ADDRESS in
  padStart (toString16 canIdInt) 8 "0".

(** src/functions/encode_autofill_command.js *)
Definition encode_autofill_command (m : command_msg) : M (option command_msg) :=
  SOURCE_ADDRESS <- SOURCE_ADDRESS ;;
  let PRIORITY := 6 in
  let DGN := "1FFB0" in
  let state := command m in
  let build (commandValue : Z) : M (option command_msg) :=
    let dataBytes := command_bytes commandValue in
    let dataHex := data_hex dataBytes in
    let canIdHex := can_id_hex PRIORITY DGN SOURCE_ADDRESS in
    ret (Some {| cmd_topic := val "can/send";
                 cmd_payload := val (toUpperCase canIdHex ++ "#" ++ toUpperCase dataHex);
                 command := command m |}) in
  if strict_eq state (val "ON") then build 0xFD
  else if strict_eq state (val "OFF") then build 0xFC
  else
    node_warn ("[encode_autofill_command] Invalid command: " ++ String "034" ""
               ++ ToString state ++ String "034" "" ++ ".") ;;
    ret None.

(** src/functions/encode_water_pump_command.js *)
Definition encode_water_pump_command (m : command_msg) : M (option command_msg) :=
  SOURCE_ADDRESS <- SOURCE_ADDRESS ;;
  let PRIORITY := 6 in
  let DGN := "1FFB2" in
  let state := command m in
  let build (pumpCommandValue : Z) : M (option command_msg) :=
    let dataBytes := command_bytes pumpCommandValue in
    let dataHex := data_hex dataBytes in
    let canIdHex := can_id_hex PRIORITY DGN SOURCE_ADDRESS in
    let text := toUpperCase canIdHex ++ "#" ++ toUpperCase dataHex in
    node_warn ("[encode_pump_command] State: " ++ ToString state ++ " | CAN: " ++ text) ;;
    ret (Some {| cmd_topic := val "can/send";
                 cmd_payload := val text;
                 command := command m |}) in
  if strict_eq state (val "ON") then build 1
  else if strict_eq state (val "OFF") then build 0
  else
    node_warn ("[encode_pump_command] Invalid command: " ++ String "034" ""
               ++ ToString state ++ String "034" "" ++ ". Expected "
               ++ String "034" "" ++ "ON" ++ String "034" "" ++ " or "
               ++ String "034" "" ++ "OFF" ++ String "034" "" ++ ".") ;;
    ret None.

(** ** The byte loop of the status decoders
    (src/functions/address_claim_monitor.js, DC_SOURCE_STATUS script) *)

(** [for (i = 0; i < s.length; i += 2) dataBytes.push(parseInt(s.substring(i, i + 2), 16))] *)
Fixpoint hex_to_bytes (s : string) : list number :=
  match s with
  | EmptyString => []
  | String a EmptyString => [parseInt16 (String a EmptyString)]
  | String a (String b r) => parseInt16 (String a (String b EmptyString)) :: hex_to_bytes r
  end.

(** [a >> k] *)
Definition js_shr (a k : Z) : Z := Z.shiftr (ToInt32 a) (k mod 32).

(** [decodeBits(byte, startBit, endBit)] *)
Definition decodeBits (byte startBit endBit : Z) : Z :=
  let mask := js_shl (js_shl 1 (endBit - startBit + 1) - 1) startBit in
  js_shr (js_and byte mask) startBit.

(** A message to the encoders. *)
Definition on_msg : command_msg :=
  {| cmd_topic := val "homeassistant/switch/autofill/set";
     cmd_payload := val "ON"; command := val "ON" |}.

(** A store with address [a] committed and nothing in flight. *)
Definition committed_store (a : Z) : store :=
  committed (claiming_store a "8000000000ABCDEF") a.

(** Whether character [c] occurs in [s]. *)
Fixpoint has_char (c : ascii) (s : string) : bool :=
  match s with
  | EmptyString => false
  | String x r => Ascii.eqb x c || has_char c r
  end.

(** A raw CAN message as the bus delivers it to the filter. *)
Definition raw_msg (text : string) : msg :=
  {| msg_topic := undefined; msg_payload := val (Text text);
     msg_claiming_address := undefined; msg_reset := undefined |}.

(** The address the encoders send from in store [s]. *)
Definition source_address_of (s : store) : Z :=
  match rvc_source_address (global s) with
  | val n => if n =? 0 then 254 else n
  | _ => 254
  end.

(** The identifier an encoder prints for DGN [dgn]: its text and what the
    filter reads from a frame starting with it. *)
Definition frame_ok (dgn : string) (base sa : Z) (data : string) : bool :=
  let id := toUpperCase (can_id_hex 6 dgn sa) in
  match split_on "#" (id ++ "#" ++ data) with
  | [canId; rest] =>
      String.eqb canId id && String.eqb rest data &&
      match parseInt16 canId with
      | Some n => (n =? base + sa) && (n mod 256 =? sa) && (String.length id =? 8)%nat
      | None => false
      end
  | _ => false
  end.

(** What the filter needs of a claim identifier for address [a]. *)
Definition claim_id_ok (a : Z) : bool :=
  match claim_can_id a with
  | String c r =>
      negb (has_char "#" (String c r)) &&
      match parseInt16 (String c r) with
      | Some n => n mod 256 =? a
      | None => false
      end
  | EmptyString => false
  end.

(** A byte printed as the encoders print it is two characters that the
    decoders' loop reads back. *)
Definition byte_text_ok (b : Z) : bool :=
  match toUpperCase (padStart (toString16 b) 2 "0") with
  | String c1 (String c2 EmptyString) =>
      match parseInt16 (String c1 (String c2 EmptyString)) with
      | Some n => n =? b
      | None => false
      end
  | _ => false
  end.

(** [decodeBits] agrees with division and remainder. *)
Definition decodeBits_ok (byte startBit endBit : Z) : bool :=
  if startBit <=? endBit
  then decodeBits byte startBit endBit =? (byte / 2 ^ startBit) mod 2 ^ (endBit - startBit + 1)
  else true.

(** ** The 32-bit current of DC_SOURCE_STATUS_1
    (src/functions/address_claim_monitor.js, DC_SOURCE_STATUS script) *)

(** What [decodeDCCurrent32bit] returns: the string "Not Available", or the
    number [parseFloat((value * 0.05).toFixed(2))], kept here as the integer
    [value] it is computed from (a count of 0.05 A steps). *)
Inductive current_reading : Type :=
| NotAvailable
| Steps_0_05A (value : Z).

Definition decodeDCCurrent32bit (value : Z) : current_reading :=
  if value =? 4294967295 then NotAvailable
  else
    let value := if value >? 2147483647 then value - 4294967296 else value in
    Steps_0_05A value.

(** [(data[7] << 24) | (data[6] << 16) | (data[5] << 8) | data[4]] and the
    call on it in [decodeDCSourceStatus1]. *)
Definition dc_current_A (data4 data5 data6 data7 : Z) : current_reading :=
  let current :=
    js_or (js_or (js_or (js_shl data7 24) (js_shl data6 16)) (js_shl data5 8)) data4 in
  decodeDCCurrent32bit current.

(** The fields of the identifier [store_claimed_address] prints for address
    [a], next to those of the request node's claim identifier: source
    address in bits 0-7, DGN in bits 8-25, priority from bit 26. *)
Definition store_id_ok (a : Z) : bool :=
  match parseInt16 (store_can_id a), parseInt16 (claim_can_id a) with
  | Some n, Some n' =>
      (n mod 256 =? a) && (n / 2 ^ 26 =? 6) && ((n / 256) mod 2 ^ 18 =? 0x3B800) &&
      (n' mod 256 =? a) && (n' / 2 ^ 26 =? 6) && ((n' / 256) mod 2 ^ 18 =? 0xEE00)
  | _, _ => false
  end.

(** ** Two nodes on one bus *)

(** Two instances of the address-claim flow, each with its own flow, global
    and node context; they share nothing but the bus.  The bus transport and
    the frame decoder are outside these scripts: a claim frame one node
    returns reaches the monitor of the other as a [ClaimFrame] event that
    announces the frame's address and identity. *)
Inductive side : Type := NodeA | NodeB.

Definition side_eqb (x y : side) : bool :=
  match x, y with
  | NodeA, NodeA | NodeB, NodeB => true
  | _, _ => false
  end.

Record network : Type := { node_A : store; node_B : store }.

Definition net_step (who : side) (e : event) (n : network)
  : completion returned * network :=
  match who with
  | NodeA => let r := handle e (node_A n) in
             (value_of r, {| node_A := store_of r; node_B := node_B n |})
  | NodeB => let r := handle e (node_B n) in
             (value_of r, {| node_A := node_A n; node_B := store_of r |})
  end.

(** A schedule is the order in which the events of both nodes are handled,
    each to completion; the result is what each handler returned, in that
    order, and the stores at the end. *)
Fixpoint net_run (sched : list (side * event)) (n : network)
  : list (side * completion returned) * network :=
  match sched with
  | [] => ([], n)
  | (who, e) :: rest =>
      let r := net_step who e n in
      let rs := net_run rest (snd r) in
      ((who, fst r) :: fst rs, snd rs)
  end.

(** The events of a schedule that one node handles, in order. *)
Definition events_at (who : side) (sched : list (side * event)) : list event :=
  flat_map (fun p => if side_eqb (fst p) who then [snd p] else []) sched.

Definition fresh_network : network :=
  {| node_A := empty_store; node_B := empty_store |}.

(** Node A starts first and draws the smaller identity; its frame reaches
    node B, which has not started yet.  Then B starts for the same address;
    its frame reaches A within A's quiet window.  Both timers fire. *)
Definition smaller_first : list (side * event) :=
  [(NodeA, Trigger 1 empty_msg);
   (NodeB, ClaimFrame (frame_msg "DF" "8000000000000001"));
   (NodeB, Trigger 2 empty_msg);
   (NodeA, ClaimFrame (frame_msg "DF" "8000000000000002"));
   (NodeA, TimerFired (timer_msg 223));
   (NodeB, TimerFired (timer_msg 223))].

(** The same two nodes when B starts before A's frame is delivered. *)
Definition both_started : list (side * event) :=
  [(NodeA, Trigger 1 empty_msg);
   (NodeB, Trigger 2 empty_msg);
   (NodeB, ClaimFrame (frame_msg "DF" "8000000000000001"));
   (NodeA, ClaimFrame (frame_msg "DF" "8000000000000002"));
   (NodeA, TimerFired (timer_msg 223));
   (NodeB, TimerFired (timer_msg 223))].

(** The consequence as the specification words it ("exactly one side
    transitions to CLAIMED for that address"): at the end exactly one of the
    two nodes holds [a] as its committed source address. *)
Definition exactly_one_holds (a : Z) (n : network) : Prop :=
  (rvc_source_address (global (node_A n)) = val a /\
   rvc_source_address (global (node_B n)) <> val a) \/
  (rvc_source_address (global (node_B n)) = val a /\
   rvc_source_address (global (node_A n)) <> val a).

(** ** The claim frame as the specification words it *)

(** "29-bit identifier = (priority=6 << 26) | (DGN=0xEE00 << 8) | address". *)
Definition claim_identifier_spec (address : Z) : Z :=
  Z.lor (Z.lor (Z.shiftl 6 26) (Z.shiftl 0xEE00 8)) address.

(** The printed identifier [id] is that of a claim frame for the address in
    its low byte. *)
Definition is_claim_identifier_spec (id : string) : bool :=
  match parseInt16 id with
  | Some n => n =? claim_identifier_spec (Z.land n 0xFF)
  | None => false
  end.

(** * Properties *)

(** ** Characters and hexadecimal strings *)

Lemma is_hex_upper_fixed (c : ascii) :
  is_hex_upper c = true -> upper_char c = c.
Proof.
  destruct c as [[] [] [] [] [] [] [] []]; vm_compute; congruence.
Qed.

Lemma is_hex_upper_digit (c : ascii) :
  is_hex_upper c = true ->
  hex_digit c = Some (digit_value c) /\ 0 <= digit_value c < 16.
Proof.
  destruct c as [[] [] [] [] [] [] [] []]; vm_compute; intuition congruence.
Qed.

Lemma is_hex_upper_print (c : ascii) :
  is_hex_upper c = true -> upper_char (hex_digit_char (digit_value c)) = c.
Proof.
  destruct c as [[] [] [] [] [] [] [] []]; vm_compute; congruence.
Qed.

Lemma digit_value_inj (c d : ascii) :
  is_hex_upper c = true -> is_hex_upper d = true ->
  digit_value c = digit_value d -> c = d.
Proof.
  intros Hc Hd E.
  rewrite <- (is_hex_upper_print c Hc), <- (is_hex_upper_print d Hd), E.
  reflexivity.
Qed.

Lemma hex_digit_char_upper (d : Z) :
  0 <= d < 16 -> is_hex_upper (upper_char (hex_digit_char d)) = true.
Proof.
  intros H.
  assert (E : d = 0 \/ d = 1 \/ d = 2 \/ d = 3 \/ d = 4 \/ d = 5 \/ d = 6 \/ d = 7 \/
              d = 8 \/ d = 9 \/ d = 10 \/ d = 11 \/ d = 12 \/ d = 13 \/ d = 14 \/ d = 15)
    by lia.
  repeat (destruct E as [E | E]; [subst d; reflexivity |]).
  subst d; reflexivity.
Qed.

Lemma toUpperCase_fixed (s : string) :
  all_hex_upper s = true -> toUpperCase s = s.
Proof.
  induction s as [| c r IH]; simpl; intros H.
  - reflexivity.
  - apply andb_true_iff in H. destruct H as [Hc Hr].
    rewrite (is_hex_upper_fixed c Hc), (IH Hr). reflexivity.
Qed.

Lemma toUpperCase_app (s t : string) :
  toUpperCase (s ++ t) = toUpperCase s ++ toUpperCase t.
Proof.
  induction s as [| c r IH]; simpl; [reflexivity | now rewrite IH].
Qed.

Lemma all_hex_upper_app (s t : string) :
  all_hex_upper (s ++ t) = all_hex_upper s && all_hex_upper t.
Proof.
  induction s as [| c r IH]; simpl; [reflexivity |].
  rewrite IH. apply andb_assoc.
Qed.

Lemma length_app (s t : string) :
  String.length (s ++ t) = (String.length s + String.length t)%nat.
Proof.
  induction s as [| c r IH]; simpl; [reflexivity | now rewrite IH].
Qed.

Lemma length_toUpperCase (s : string) :
  String.length (toUpperCase s) = String.length s.
Proof.
  induction s as [| c r IH]; simpl; [reflexivity | now rewrite IH].
Qed.

Lemma repeat_char_zero (n : nat) :
  String.length (repeat_char "0" n) = n /\
  all_hex_upper (toUpperCase (repeat_char "0" n)) = true.
Proof.
  induction n as [| n [IH1 IH2]]; simpl; [auto |].
  split; [now rewrite IH1 | exact IH2].
Qed.

(** The digits printed by [toString(16)], upper-cased, are upper-case
    hexadecimal digits; a number below [16 ^ k] prints at most [k] of them. *)
Lemma hex_digits_upper (fuel : nat) :
  forall n acc,
    0 <= n ->
    all_hex_upper (toUpperCase acc) = true ->
    all_hex_upper (toUpperCase (hex_digits fuel n acc)) = true.
Proof.
  induction fuel as [| fuel IH]; intros n acc Hn Hacc; simpl.
  - exact Hacc.
  - assert (Hd : all_hex_upper
                   (toUpperCase (String (hex_digit_char (n mod 16)) acc)) = true).
    { simpl. rewrite Hacc, hex_digit_char_upper; [reflexivity |].
      apply Z.mod_pos_bound; lia. }
    destruct (n / 16 =? 0); [exact Hd |].
    apply IH; [apply Z.div_pos; lia | exact Hd].
Qed.

Lemma hex_digits_length (fuel : nat) :
  forall n acc k,
    0 <= n < 16 ^ Z.of_nat (S k) ->
    (String.length (hex_digits fuel n acc) <= S k + String.length acc)%nat.
Proof.
  induction fuel as [| fuel IH]; intros n acc k Hn; simpl hex_digits.
  - lia.
  - destruct (n / 16 =? 0) eqn:E.
    + simpl. lia.
    + apply Z.eqb_neq in E.
      destruct k as [| k].
      * exfalso. apply E. apply Z.div_small. change (16 ^ Z.of_nat 1) with 16 in Hn. lia.
      * specialize (IH (n / 16) (String (hex_digit_char (n mod 16)) acc) k).
        simpl String.length in IH.
        assert (Hq : 0 <= n / 16 < 16 ^ Z.of_nat (S k)).
        { split; [apply Z.div_pos; lia |].
          apply Z.div_lt_upper_bound; [lia |].
          replace (Z.of_nat (S (S k))) with (Z.succ (Z.of_nat (S k))) in Hn by lia.
          rewrite Z.pow_succ_r in Hn by lia. lia. }
        specialize (IH Hq). lia.
Qed.

Lemma hex_digit_char_value (d : Z) :
  0 <= d < 16 -> hex_digit (hex_digit_char d) = Some d.
Proof.
  intros H.
  assert (E : d = 0 \/ d = 1 \/ d = 2 \/ d = 3 \/ d = 4 \/ d = 5 \/ d = 6 \/ d = 7 \/
              d = 8 \/ d = 9 \/ d = 10 \/ d = 11 \/ d = 12 \/ d = 13 \/ d = 14 \/ d = 15)
    by lia.
  repeat (destruct E as [E | E]; [subst d; reflexivity |]).
  subst d; reflexivity.
Qed.

Lemma hex_digits_S (fuel : nat) (n : Z) (acc : string) :
  hex_digits (S fuel) n acc =
    if n / 16 =? 0 then String (hex_digit_char (n mod 16)) acc
    else hex_digits fuel (n / 16) (String (hex_digit_char (n mod 16)) acc).
Proof. reflexivity. Qed.

(** The fuel given to [hex_digits] suffices: reading the printed digits
    back yields the number. *)
Lemma hex_digits_parse (fuel : nat) :
  forall n acc,
    0 <= n < 2 ^ Z.of_nat (S fuel) ->
    hex_literal (hex_digits (S fuel) n acc) None = hex_literal acc (Some n).
Proof.
  induction fuel as [| fuel IH]; intros n acc Hn.
  - change (2 ^ Z.of_nat 1) with 2 in Hn.
    assert (n = 0 \/ n = 1) as [-> | ->] by lia; reflexivity.
  - rewrite hex_digits_S.
    assert (Hd : 0 <= n mod 16 < 16) by (apply Z.mod_pos_bound; lia).
    assert (Hq : n = 16 * (n / 16) + n mod 16) by (apply Z.div_mod; lia).
    destruct (n / 16 =? 0) eqn:E.
    + apply Z.eqb_eq in E. cbn [hex_literal].
      rewrite (hex_digit_char_value _ Hd). do 2 f_equal. lia.
    + rewrite IH.
      * cbn [hex_literal]. rewrite (hex_digit_char_value _ Hd). do 2 f_equal. lia.
      * split; [apply Z.div_pos; lia |].
        apply Z.div_lt_upper_bound; [lia |].
        replace (Z.of_nat (S (S fuel))) with (Z.succ (Z.of_nat (S fuel))) in Hn by lia.
        rewrite Z.pow_succ_r in Hn by lia. lia.
Qed.

Lemma toString16_parse (n : Z) :
  0 <= n -> hex_literal (toString16 n) None = Some n.
Proof.
  intros Hn. unfold toString16.
  destruct (n <? 0) eqn:E; [apply Z.ltb_lt in E; lia |].
  rewrite hex_digits_parse; [reflexivity |].
  split; [exact Hn |].
  destruct (Z.eq_dec n 0) as [-> | Hne]; [reflexivity |].
  replace (Z.of_nat (S (Z.to_nat (Z.log2 n)))) with (Z.succ (Z.log2 n))
    by (pose proof (Z.log2_nonneg n); lia).
  apply Z.log2_spec. lia.
Qed.

(** A freshly generated identity is a device NAME. *)
Lemma generated_is_device_name (randomSerial : Z) :
  0 <= randomSerial < 0x1FFFFF ->
  is_device_name
    ("8000000000" ++ toUpperCase (padStart (toString16 randomSerial) 6 "0")) = true.
Proof.
  intros H.
  unfold toString16. destruct (randomSerial <? 0) eqn:E; [apply Z.ltb_lt in E; lia |].
  set (d := hex_digits _ randomSerial "").
  assert (Hlen : (String.length d <= 6)%nat).
  { assert (Hr : 0 <= randomSerial < 16 ^ Z.of_nat 6)
      by (change (16 ^ Z.of_nat 6) with 16777216; lia).
    pose proof (hex_digits_length (S (Z.to_nat (Z.log2 randomSerial)))
                  randomSerial "" 5 Hr) as L.
    change (String.length "") with 0%nat in L. unfold d. lia. }
  assert (Hup : all_hex_upper (toUpperCase d) = true).
  { apply hex_digits_upper; [lia | reflexivity]. }
  unfold padStart. rewrite toUpperCase_app.
  destruct (repeat_char_zero (6 - String.length d)) as [L0 U0].
  set (h := toUpperCase (repeat_char "0" (6 - String.length d)) ++ toUpperCase d).
  assert (Hh : String.length h = 6%nat /\ all_hex_upper h = true).
  { unfold h. rewrite length_app, !length_toUpperCase, L0, all_hex_upper_app, U0, Hup.
    split; [lia | reflexivity]. }
  destruct Hh as [Hl Hu].
  unfold is_device_name, is_name.
  rewrite length_app, Hl, all_hex_upper_app, Hu.
  clearbody h. clear. simpl. destruct h; reflexivity.
Qed.

Lemma device_name_is_name (n : string) :
  is_device_name n = true -> is_name n = true.
Proof.
  unfold is_device_name. intros H. apply andb_true_iff in H. tauto.
Qed.

Lemma is_name_fixed (n : string) :
  is_name n = true -> toUpperCase n = n.
Proof.
  unfold is_name. intros H. apply andb_true_iff in H.
  apply toUpperCase_fixed. tauto.
Qed.


(** ** The numeric value of a NAME *)

Lemma even_length_cases (n : nat) (s : string) :
  String.length s = (2 * n)%nat -> all_hex_upper s = true ->
  (n = O /\ s = "") \/
  exists m h l r, n = S m /\ s = String h (String l r) /\
                  String.length r = (2 * m)%nat /\
                  is_hex_upper h = true /\ is_hex_upper l = true /\
                  all_hex_upper r = true.
Proof.
  intros L H. destruct n as [| m].
  - left. destruct s; [auto | discriminate].
  - right. destruct s as [| h [| l r]]; simpl in L; try lia.
    simpl in H. apply andb_true_iff in H. destruct H as [Hh H].
    apply andb_true_iff in H. destruct H as [Hl Hr].
    exists m, h, l, r. repeat split; auto. lia.
Qed.

Lemma hex_literal_bytes (n : nat) :
  forall s a,
    String.length s = (2 * n)%nat -> all_hex_upper s = true ->
    hex_literal s (Some a) = Some (fold_left be_step (name_bytes s) a).
Proof.
  induction n as [| n IH]; intros s a L H;
    destruct (even_length_cases _ _ L H)
      as [[E ->] | (m & h & l & r & E & -> & Lr & Hh & Hl & Hr)]; try discriminate.
  - reflexivity.
  - injection E as <-.
    cbn [hex_literal name_bytes fold_left].
    destruct (is_hex_upper_digit h Hh) as [-> _].
    destruct (is_hex_upper_digit l Hl) as [-> _].
    rewrite (IH r _ Lr Hr). unfold be_step at 3. f_equal. f_equal. lia.
Qed.

Lemma fold_be_bounds (n : nat) :
  forall s a,
    String.length s = (2 * n)%nat -> all_hex_upper s = true ->
    256 ^ Z.of_nat n * a <= fold_left be_step (name_bytes s) a
      < 256 ^ Z.of_nat n * a + 256 ^ Z.of_nat n.
Proof.
  induction n as [| n IH]; intros s a L H;
    destruct (even_length_cases _ _ L H)
      as [[E ->] | (m & h & l & r & E & -> & Lr & Hh & Hl & Hr)]; try discriminate.
  - cbn [name_bytes fold_left]. change (256 ^ Z.of_nat 0) with 1. lia.
  - injection E as <-.
    cbn [name_bytes fold_left].
    specialize (IH r (be_step a (16 * digit_value h + digit_value l)) Lr Hr).
    destruct (is_hex_upper_digit h Hh) as [_ Bh].
    destruct (is_hex_upper_digit l Hl) as [_ Bl].
    replace (Z.of_nat (S n)) with (Z.succ (Z.of_nat n)) by lia.
    rewrite Z.pow_succ_r by lia.
    assert (P : 0 < 256 ^ Z.of_nat n) by (apply Z.pow_pos_nonneg; lia).
    unfold be_step in *.
    set (p := 256 ^ Z.of_nat n) in *.
    set (b := 16 * digit_value h + digit_value l) in *.
    assert (Hb : 0 <= b <= 255) by (unfold b; lia).
    assert (Hpb : 0 <= p * b <= 255 * p) by nia.
    replace (p * (256 * a + b)) with (256 * p * a + p * b) in IH by ring.
    lia.
Qed.

Lemma fold_be_inj (n : nat) :
  forall s t a b,
    String.length s = (2 * n)%nat -> all_hex_upper s = true ->
    String.length t = (2 * n)%nat -> all_hex_upper t = true ->
    fold_left be_step (name_bytes s) a = fold_left be_step (name_bytes t) b ->
    a = b /\ s = t.
Proof.
  induction n as [| n IH]; intros s t a b Ls Hs Lt Ht E;
    destruct (even_length_cases _ _ Ls Hs)
      as [[Es ->] | (m & h & l & r & Es & -> & Lr & Hh & Hl & Hr)]; try discriminate;
    destruct (even_length_cases _ _ Lt Ht)
      as [[Et ->] | (m' & h' & l' & r' & Et & -> & Lr' & Hh' & Hl' & Hr')];
    try discriminate.
  - simpl in E. auto.
  - injection Es as <-. injection Et as <-.
    cbn [name_bytes fold_left] in E.
    destruct (IH _ _ _ _ Lr Hr Lr' Hr' E) as [Eacc ->].
    destruct (is_hex_upper_digit h Hh) as [_ Bh].
    destruct (is_hex_upper_digit l Hl) as [_ Bl].
    destruct (is_hex_upper_digit h' Hh') as [_ Bh'].
    destruct (is_hex_upper_digit l' Hl') as [_ Bl'].
    unfold be_step in Eacc.
    assert (a = b) by lia.
    assert (digit_value h = digit_value h') by lia.
    assert (digit_value l = digit_value l') by lia.
    split; [assumption |].
    f_equal; [| f_equal]; apply digit_value_inj; assumption.
Qed.

Lemma is_name_parts (s : string) :
  is_name s = true -> String.length s = (2 * 8)%nat /\ all_hex_upper s = true.
Proof.
  unfold is_name. intros H. apply andb_true_iff in H. destruct H as [L H].
  apply Nat.eqb_eq in L. auto.
Qed.

Lemma be_uint_fold (bytes : list Z) : be_uint bytes = fold_left be_step bytes 0.
Proof. reflexivity. Qed.

(** [BigInt("0x" + name)] is the NAME's eight bytes read big-endian. *)
Lemma hex_literal_name (s : string) :
  is_name s = true -> hex_literal s None = Some (name_value s).
Proof.
  intros H. destruct (is_name_parts s H) as [L A].
  destruct (even_length_cases _ _ L A)
    as [[E _] | (m & h & l & r & E & -> & Lr & Hh & Hl & Hr)]; [discriminate |].
  unfold name_value. rewrite be_uint_fold.
  cbn [hex_literal name_bytes fold_left].
  destruct (is_hex_upper_digit h Hh) as [-> _].
  destruct (is_hex_upper_digit l Hl) as [-> _].
  rewrite (hex_literal_bytes m r _ Lr Hr). reflexivity.
Qed.

Lemma name_value_range (s : string) :
  is_name s = true -> 0 <= name_value s < 2 ^ 64.
Proof.
  intros H. destruct (is_name_parts s H) as [L A].
  pose proof (fold_be_bounds 8 s 0 L A) as B.
  unfold name_value. rewrite be_uint_fold.
  change (256 ^ Z.of_nat 8) with (2 ^ 64) in B. lia.
Qed.

Lemma name_value_inj (s t : string) :
  is_name s = true -> is_name t = true -> name_value s = name_value t -> s = t.
Proof.
  intros Hs Ht E.
  destruct (is_name_parts s Hs) as [Ls As].
  destruct (is_name_parts t Ht) as [Lt At].
  unfold name_value in E. rewrite !be_uint_fold in E.
  exact (proj2 (fold_be_inj 8 s t 0 0 Ls As Lt At E)).
Qed.

(** ** Running scripts *)

Ltac script :=
  cbv beta iota delta
    [bind ret throw emit node_warn node_error node_log
     flow_get global_get context_get flow_set global_set context_set
     set_claim_in_progress set_claiming_address set_our_device_name
     set_my_persistent_rvc_id set_rvc_source_address set_address_attempt
     get_dataPayload get_sourceAddress call_toUpperCase negb].

(** ** The conflict monitor *)

Lemma monitor_conflict (s : store) (m : msg) (a : Z) (ours comp : string) :
  contending s a ours -> announces m a comp ->
  is_name ours = true -> is_name comp = true -> comp <> ours ->
  address_claim_monitor m s =
    if name_value ours <? name_value comp then
      (Normal return_null, s,
       [Warn ("Address " ++ Z_to_string a ++ " conflict detected!");
        Warn ("Our NAME: " ++ ours ++ ", Competitor NAME: " ++ comp);
        Warn ("We WIN the conflict. Continuing to claim address " ++ Z_to_string a)])
    else
      (Normal (return_array [retryMsg; resetTimerMsg]), claim_cleared s,
       [Warn ("Address " ++ Z_to_string a ++ " conflict detected!");
        Warn ("Our NAME: " ++ ours ++ ", Competitor NAME: " ++ comp);
        Warn "We LOSE the conflict. Cancelling timer and trying next address.";
        Assign Flow "claim_in_progress"]).
Proof.
  intros (Hc & Ha & Hn) (f & raw & Hp & Hd & Hu & Hs) No Nc Ne.
  unfold address_claim_monitor. script.
  rewrite Hc, Ha, Hn, Hp. script. rewrite Hd. script. rewrite Hu, Hs.
  assert (E1 : number_strict_eq (Some a) (val a) = true) by apply Z.eqb_refl.
  assert (E2 : strict_eq (val comp) (val ours) = false)
    by (apply String.eqb_neq; exact Ne).
  rewrite E1, E2.
  unfold BigInt_0x. cbn [ToString prim_to_string Prim_string Prim_number].
  rewrite (hex_literal_name ours No), (hex_literal_name comp Nc). script.
  destruct (name_value ours <? name_value comp); reflexivity.
Qed.

(** A frame that arrives while no claim is in flight is dropped at once. *)
Lemma monitor_idle (m : msg) (s : store) :
  truthy (claim_in_progress (flow s)) = false ->
  address_claim_monitor m s = (Normal return_null, s, []).
Proof.
  intros Hc. unfold address_claim_monitor. script. rewrite Hc. reflexivity.
Qed.

Lemma success_commits (m : msg) (s : store) (a : Z) :
  truthy (claim_in_progress (flow s)) = true ->
  claiming_address (flow s) = val a ->
  msg_claiming_address m = val a ->
  store_of (address_claim_success m s) = committed s a.
Proof.
  intros Hc Ha Ht. unfold address_claim_success. rewrite Ht. script.
  rewrite Hc, Ha.
  assert (E : strict_eq (val a) (val a) = true) by apply Z.eqb_refl.
  rewrite E. reflexivity.
Qed.

Lemma success_cancelled (m : msg) (s : store) :
  truthy (claim_in_progress (flow s)) = false ->
  store_of (address_claim_success m s) = s.
Proof.
  intros Hc. unfold address_claim_success. script.
  destruct (msg_claiming_address m); script; try reflexivity.
  rewrite Hc. reflexivity.
Qed.

(** The side with the smaller NAME sees the other's frame and then its own
    timer: it commits. *)
Lemma winner_run (s : store) (m t : msg) (a : Z) (ours comp : string) :
  contending s a ours -> announces m a comp ->
  is_name ours = true -> is_name comp = true -> comp <> ours ->
  name_value ours < name_value comp ->
  msg_claiming_address t = val a ->
  run [ClaimFrame m; TimerFired t] s = committed s a.
Proof.
  intros Hs Hm No Nc Ne Lt Ht.
  pose proof (monitor_conflict s m a ours comp Hs Hm No Nc Ne) as R.
  apply Z.ltb_lt in Lt. rewrite Lt in R.
  cbn [run handle]. rewrite R. cbn [store_of fst snd].
  destruct Hs as (Hc & Ha & _).
  apply success_commits; assumption.
Qed.

(** The side with the larger NAME sees the other's frame and gives up; its
    timer, should it still fire, finds the flag cleared. *)
Lemma loser_run (s : store) (m t : msg) (a : Z) (ours comp : string) :
  contending s a ours -> announces m a comp ->
  is_name ours = true -> is_name comp = true -> comp <> ours ->
  name_value comp < name_value ours ->
  run [ClaimFrame m; TimerFired t] s = claim_cleared s.
Proof.
  intros Hs Hm No Nc Ne Lt.
  pose proof (monitor_conflict s m a ours comp Hs Hm No Nc Ne) as R.
  assert (F : (name_value ours <? name_value comp) = false)
    by (apply Z.ltb_ge; lia).
  rewrite F in R.
  cbn [run handle]. rewrite R. cbn [store_of fst snd].
  apply success_cancelled. reflexivity.
Qed.

(** The nodes of a network do not see each other's stores: each ends where
    its own events, in schedule order, take it. *)
Lemma net_run_nodes (sched : list (side * event)) (n : network) :
  node_A (snd (net_run sched n)) = run (events_at NodeA sched) (node_A n) /\
  node_B (snd (net_run sched n)) = run (events_at NodeB sched) (node_B n).
Proof.
  revert n. induction sched as [| [who e] rest IH]; intros n.
  - split; reflexivity.
  - cbn [net_run snd]. destruct (IH (snd (net_step who e n))) as [IA IB].
    rewrite IA, IB. unfold events_at. cbn [flat_map fst snd].
    destruct who; cbn [side_eqb net_step snd node_A node_B app run];
      split; reflexivity.
Qed.

Lemma network_eq (n : network) (sA sB : store) :
  node_A n = sA -> node_B n = sB -> n = {| node_A := sA; node_B := sB |}.
Proof. destruct n; cbn; intros -> ->; reflexivity. Qed.

(** C1 : Tie-break of the Conflict Monitor.  A claim frame for the address
    in flight that carries another identity is settled by comparing the two
    NAMEs as unsigned big-endian 64-bit integers (distinct NAMEs have
    distinct values below 2^64): with the smaller NAME the monitor
    writes nothing and returns nothing; with the larger NAME it clears
    [claim_in_progress] and returns the retry message (which the request
    node treats as a retry) together with the timer reset.  Hence of two
    nodes contending for one address under distinct NAMEs, when each handles
    the other's frame while its own claim for that address is in flight,
    exactly the numerically smaller one keeps claiming and the other
    retries; and in every schedule in which each node handles the other's
    frame and then its own timer, however the two nodes' events are
    interleaved, the smaller one ends with the address committed and the
    other with its flag cleared and nothing committed by this cycle.  A
    frame handled while no claim is in flight is dropped without a trace, so
    the outcome does depend on a frame arriving after the receiver has
    started. *)
Theorem monitor_tie_break :
  (forall s m a ours comp,
     contending s a ours -> announces m a comp ->
     is_name ours = true -> is_name comp = true -> comp <> ours ->
     0 <= name_value ours < 2 ^ 64 /\
     0 <= name_value comp < 2 ^ 64 /\
     name_value ours <> name_value comp /\
     (name_value ours < name_value comp -> keeps_claiming m s) /\
     (name_value comp < name_value ours -> retries m s)) /\
  is_retry retryMsg = true /\
  (forall sA sB mA mB a nameA nameB,
     contending sA a nameA -> contending sB a nameB ->
     announces mA a nameA -> announces mB a nameB ->
     is_name nameA = true -> is_name nameB = true -> nameA <> nameB ->
     (name_value nameA < name_value nameB /\ keeps_claiming mB sA /\ retries mA sB) \/
     (name_value nameB < name_value nameA /\ keeps_claiming mA sB /\ retries mB sA)) /\
  (forall sched sA sB mA mB tA tB a nameA nameB,
     contending sA a nameA -> contending sB a nameB ->
     announces mA a nameA -> announces mB a nameB ->
     is_name nameA = true -> is_name nameB = true -> nameA <> nameB ->
     msg_claiming_address tA = val a -> msg_claiming_address tB = val a ->
     events_at NodeA sched = [ClaimFrame mB; TimerFired tA] ->
     events_at NodeB sched = [ClaimFrame mA; TimerFired tB] ->
     (name_value nameA < name_value nameB /\
      snd (net_run sched {| node_A := sA; node_B := sB |})
        = {| node_A := committed sA a; node_B := claim_cleared sB |}) \/
     (name_value nameB < name_value nameA /\
      snd (net_run sched {| node_A := sA; node_B := sB |})
        = {| node_A := claim_cleared sA; node_B := committed sB a |})) /\
  (forall s m,
     truthy (claim_in_progress (flow s)) = false ->
     no_op (address_claim_monitor m s) return_null s).
Proof.
  assert (One : forall s m a ours comp,
             contending s a ours -> announces m a comp ->
             is_name ours = true -> is_name comp = true -> comp <> ours ->
             (name_value ours < name_value comp -> keeps_claiming m s) /\
             (name_value comp < name_value ours -> retries m s)).
  { intros s m a ours comp Hs Hm No Nc Ne.
    pose proof (monitor_conflict s m a ours comp Hs Hm No Nc Ne) as R.
    split; intros Lt; unfold keeps_claiming, retries; rewrite R.
    - apply Z.ltb_lt in Lt. rewrite Lt. repeat split.
    - assert (F : (name_value ours <? name_value comp) = false)
        by (apply Z.ltb_ge; lia).
      rewrite F. repeat split. }
  split; [| split; [reflexivity | split; [| split]]].
  - intros s m a ours comp Hs Hm No Nc Ne.
    split; [apply name_value_range; exact No |].
    split; [apply name_value_range; exact Nc |].
    split; [| exact (One s m a ours comp Hs Hm No Nc Ne)].
    intros E. apply Ne. symmetry. apply name_value_inj; assumption.
  - intros sA sB mA mB a nameA nameB HA HB MA MB NA NB Ne.
    assert (Ne' : nameB <> nameA) by congruence.
    destruct (One sA mB a nameA nameB HA MB NA NB Ne') as [WA LA].
    destruct (One sB mA a nameB nameA HB MA NB NA Ne) as [WB LB].
    assert (D : name_value nameA <> name_value nameB)
      by (intros E; apply Ne; apply name_value_inj; assumption).
    destruct (Z.lt_total (name_value nameA) (name_value nameB)) as [L | [E | L]].
    + left. auto.
    + contradiction.
    + right. auto.
  - intros sched sA sB mA mB tA tB a nameA nameB HA HB MA MB NA NB Ne TA TB EA EB.
    assert (Ne' : nameB <> nameA) by congruence.
    assert (D : name_value nameA <> name_value nameB)
      by (intros E; apply Ne; apply name_value_inj; assumption).
    destruct (net_run_nodes sched {| node_A := sA; node_B := sB |}) as [PA PB].
    rewrite EA in PA. rewrite EB in PB. cbn [node_A node_B] in PA, PB.
    destruct (Z.lt_total (name_value nameA) (name_value nameB)) as [L | [E | L]].
    + left. split; [exact L |]. apply network_eq.
      * rewrite PA. exact (winner_run sA mB tA a nameA nameB HA MB NA NB Ne' L TA).
      * rewrite PB. exact (loser_run sB mA tB a nameB nameA HB MA NB NA Ne L).
    + contradiction.
    + right. split; [exact L |]. apply network_eq.
      * rewrite PA. exact (loser_run sA mB tA a nameA nameB HA MB NA NB Ne' L).
      * rewrite PB. exact (winner_run sB mA tB a nameB nameA HB MA NB NA Ne L TB).
  - intros s m Hc. unfold no_op. rewrite (monitor_idle m s Hc). repeat split.
Qed.

(** Scenario B: our NAME 8000000000ABCDEF loses address 0xDF to
    7000000000112233; and two nodes that have both started, each handling
    the other's frame and then its timer. *)
Lemma monitor_tie_break_witness :
  retries (frame_msg "DF" "7000000000112233") (claiming_store 223 "8000000000ABCDEF") /\
  snd (net_run [(NodeB, ClaimFrame (frame_msg "DF" "8000000000000001"));
                (NodeA, ClaimFrame (frame_msg "DF" "8000000000000002"));
                (NodeA, TimerFired (timer_msg 223));
                (NodeB, TimerFired (timer_msg 223))]
         {| node_A := claiming_store 223 "8000000000000001";
            node_B := claiming_store 223 "8000000000000002" |})
  = {| node_A := committed (claiming_store 223 "8000000000000001") 223;
       node_B := claim_cleared (claiming_store 223 "8000000000000002") |}.
Proof.
  split.
  - refine (proj2 (proj2 (proj2 (proj2
      (proj1 monitor_tie_break (claiming_store 223 "8000000000ABCDEF")
         (frame_msg "DF" "7000000000112233") 223
         "8000000000ABCDEF" "7000000000112233" _ _ _ _ _)))) _).
    + repeat split.
    + exists {| dataPayload := val "7000000000112233"; sourceAddress := val "DF" |},
        "7000000000112233". repeat split.
    + reflexivity.
    + reflexivity.
    + discriminate.
    + vm_compute. reflexivity.
  - destruct (proj1 (proj2 (proj2 (proj2 monitor_tie_break)))
                [(NodeB, ClaimFrame (frame_msg "DF" "8000000000000001"));
                 (NodeA, ClaimFrame (frame_msg "DF" "8000000000000002"));
                 (NodeA, TimerFired (timer_msg 223));
                 (NodeB, TimerFired (timer_msg 223))]
                (claiming_store 223 "8000000000000001")
                (claiming_store 223 "8000000000000002")
                (frame_msg "DF" "8000000000000001")
                (frame_msg "DF" "8000000000000002")
                (timer_msg 223) (timer_msg 223) 223
                "8000000000000001" "8000000000000002") as [[_ H] | [L _]].
    + repeat split.
    + repeat split.
    + exists {| dataPayload := val "8000000000000001"; sourceAddress := val "DF" |},
        "8000000000000001". repeat split.
    + exists {| dataPayload := val "8000000000000002"; sourceAddress := val "DF" |},
        "8000000000000002". repeat split.
    + reflexivity.
    + reflexivity.
    + discriminate.
    + reflexivity.
    + reflexivity.
    + reflexivity.
    + reflexivity.
    + exact H.
    + exfalso. vm_compute in L. discriminate.
Defined.

(** Against C1 as the specification words it ("exactly one side ...
    regardless of which announcement arrives first or second").  Two fresh
    nodes, A drawing the smaller NAME.  In [smaller_first] A's frame reaches
    B before B has started: B drops it, claims 223 itself, A wins against
    B's frame and returns nothing, and both timers commit 223.  Every frame
    a node returned was delivered to the other, and the node with the larger
    NAME never returned a retry.  In [both_started], where B has started
    when A's frame arrives, only A commits 223. *)
Lemma smaller_first_both_commit :
  name_value "8000000000000001" < name_value "8000000000000002" /\
  fst (net_run smaller_first fresh_network)
    = [(NodeA, Normal (return_msg (claim_msg empty_msg 223 "8000000000000001")));
       (NodeB, Normal return_null);
       (NodeB, Normal (return_msg (claim_msg empty_msg 223 "8000000000000002")));
       (NodeA, Normal return_null);
       (NodeA, Normal return_null);
       (NodeB, Normal return_null)] /\
  msg_payload (claim_msg empty_msg 223 "8000000000000001")
    = val (Text "18EE00DF#8000000000000001") /\
  msg_payload (claim_msg empty_msg 223 "8000000000000002")
    = val (Text "18EE00DF#8000000000000002") /\
  announces (frame_msg "DF" "8000000000000001") 223 "8000000000000001" /\
  announces (frame_msg "DF" "8000000000000002") 223 "8000000000000002" /\
  rvc_source_address (global (node_A (snd (net_run smaller_first fresh_network)))) = val 223 /\
  rvc_source_address (global (node_B (snd (net_run smaller_first fresh_network)))) = val 223 /\
  ~ exactly_one_holds 223 (snd (net_run smaller_first fresh_network)) /\
  exactly_one_holds 223 (snd (net_run both_started fresh_network)).
Proof.
  split; [vm_compute; reflexivity |].
  split; [vm_compute; reflexivity |].
  split; [vm_compute; reflexivity |].
  split; [vm_compute; reflexivity |].
  split.
  { exists {| dataPayload := val "8000000000000001"; sourceAddress := val "DF" |},
      "8000000000000001". repeat split. }
  split.
  { exists {| dataPayload := val "8000000000000002"; sourceAddress := val "DF" |},
      "8000000000000002". repeat split. }
  split; [vm_compute; reflexivity |].
  split; [vm_compute; reflexivity |].
  split.
  - intros [[_ H] | [_ H]]; apply H; vm_compute; reflexivity.
  - left. split; [vm_compute; reflexivity |]. vm_compute. discriminate.
Qed.

(** ** The commit handler *)

Lemma strict_eq_number (v : js Z) (a : Z) :
  strict_eq v (val a) = true <-> v = val a.
Proof.
  destruct v as [| | x]; simpl; split; try discriminate.
  - intros E. apply Z.eqb_eq in E. now subst.
  - intros E. injection E as ->. apply Z.eqb_refl.
Qed.

(** C2 : Contract of the commit handler [address_claim_success] for a
    timer message carrying address token [token]: with the claiming flag
    not set it returns nothing and writes nothing; with the flag set but a
    different live [claiming_address] likewise; otherwise it writes
    [rvc_source_address := token], clears the three claim-progress keys
    ([claim_in_progress := false], [claiming_address := null],
    [our_device_name := null]) and returns no message. *)
Theorem success_timer_contract (m : msg) (token : Z) (s : store) :
  msg_claiming_address m = val token ->
  (truthy (claim_in_progress (flow s)) = false ->
     no_op (address_claim_success m s) return_null s) /\
  (truthy (claim_in_progress (flow s)) = true ->
   claiming_address (flow s) <> val token ->
     no_op (address_claim_success m s) return_null s) /\
  (truthy (claim_in_progress (flow s)) = true ->
   claiming_address (flow s) = val token ->
     value_of (address_claim_success m s) = Normal return_null /\
     store_of (address_claim_success m s) = committed s token /\
     assignments (effects_of (address_claim_success m s)) =
       [(Global, "rvc_source_address"); (Flow, "claim_in_progress");
        (Flow, "claiming_address"); (Flow, "our_device_name")]).
Proof.
  intros Ht. unfold address_claim_success, no_op. rewrite Ht. script.
  split; [| split]; intros Hc.
  - rewrite Hc. repeat split.
  - intros Hne. rewrite Hc.
    destruct (strict_eq (claiming_address (flow s)) (val token)) eqn:E.
    + apply strict_eq_number in E. contradiction.
    + repeat split.
  - intros He. rewrite Hc.
    rewrite (proj2 (strict_eq_number _ _) He). repeat split.
Qed.

Lemma success_timer_contract_witness :
  store_of (address_claim_success (timer_msg 223) (claiming_store 223 "8000000000ABCDEF"))
  = committed (claiming_store 223 "8000000000ABCDEF") 223.
Proof.
  refine (proj1 (proj2 (proj2 (proj2
    (success_timer_contract (timer_msg 223) 223
       (claiming_store 223 "8000000000ABCDEF") _)) _ _))).
  - reflexivity.
  - reflexivity.
  - reflexivity.
Defined.

(** ** The address selector *)

Lemma set_has_In (used : list Z) (a : Z) : set_has used a = true <-> In a used.
Proof.
  unfold set_has. rewrite existsb_exists. split.
  - intros (x & Hx & E). apply Z.eqb_eq in E. now subst.
  - intros H. exists a. split; [exact H | apply Z.eqb_refl].
Qed.

(** The loop terminates within its fuel: it stops at the first address,
    going down from [a], that is free or below [MIN_ADDRESS]; it writes
    nothing. *)
Lemma skip_used_run (used : list Z) (fuel : nat) :
  forall a s,
    a - MIN_ADDRESS + 1 <= Z.of_nat fuel ->
    exists r effs,
      skip_used fuel used a s = (Normal r, s, effs) /\
      assignments effs = [] /\ commits effs = false /\
      r <= a /\
      (forall x, r < x <= a -> In x used /\ MIN_ADDRESS <= x) /\
      (In r used -> r < MIN_ADDRESS).
Proof.
  induction fuel as [| fuel IH]; intros a s Hf.
  - exists a, []. cbn [skip_used]. script.
    repeat split; lia.
  - cbn [skip_used].
    destruct (set_has used a && (MIN_ADDRESS <=? a)) eqn:E.
    + apply andb_true_iff in E. destruct E as [Hin Hge].
      apply set_has_In in Hin. apply Z.leb_le in Hge.
      destruct (IH (a - 1) s) as (r & effs & Hr & Ha & Hc & Hle & Hsk & Hex); [lia |].
      script. rewrite Hr.
      exists r, (Warn ("Address " ++ Z_to_string (a - 1 + 1)
                        ++ " is known to be in use, skipping to "
                        ++ Z_to_string (a - 1)) :: effs).
      repeat split; try assumption; try lia.
      * destruct (Z.eq_dec x a) as [-> | Hne]; [exact Hin | apply Hsk; lia].
      * destruct (Z.eq_dec x a) as [-> | Hne]; [exact Hge | apply Hsk; lia].
    + exists a, []. script. repeat split; try lia.
      intros Hin. apply set_has_In in Hin. rewrite Hin in E.
      simpl in E. apply Z.leb_gt in E. exact E.
Qed.

Lemma select_address_run (m : msg) (s : store) :
  exists r effs,
    select_address m s = (Normal r, s, effs) /\
    assignments effs = [] /\ commits effs = false /\
    r <= start_candidate m s /\
    (forall x, r < x <= start_candidate m s -> In x (used_set s) /\ MIN_ADDRESS <= x) /\
    (In r (used_set s) -> r < MIN_ADDRESS).
Proof.
  unfold select_address, start_candidate, previous_candidate, used_set, is_retry.
  script.
  set (used := match used_addresses (flow s) with val l => l | _ => [] end).
  set (prev := match address_attempt (context s) with
               | val n => if n =? 0 then STARTING_ADDRESS else n
               | _ => STARTING_ADDRESS
               end).
  destruct (strict_eq (msg_topic m) (val "address_claim_retry")).
  - destruct (skip_used_run used (Z.to_nat (prev - 1 - MIN_ADDRESS + 1)) (prev - 1) s)
      as (r & effs & Hr & Ha & Hc & H); [lia |].
    rewrite Hr.
    exists r, (Warn ("Lost address conflict. Trying next address: "
                     ++ Z_to_string (prev - 1)) :: effs).
    split; [reflexivity |]. split; [exact Ha |]. split; [exact Hc | exact H].
  - destruct (skip_used_run used (Z.to_nat (prev - MIN_ADDRESS + 1)) prev s)
      as (r & effs & Hr & Ha & Hc & H); [lia |].
    rewrite Hr. exists r, effs.
    split; [reflexivity |]. split; [exact Ha |]. split; [exact Hc | exact H].
Qed.

(** C4 : Address selection in [address_claim_request], as the code has it.
    The candidate starts at the persisted attempt counter, or at
    STARTING_ADDRESS (223) when there is none, and is decremented by exactly
    1 when, and only when, the message is a retry after a loss.  From
    there the loop walks down past every address that is in the used set
    and still >= MIN_ADDRESS (208): the result is the first address at or
    below the start that is free or below MIN_ADDRESS.  Selection always
    returns and writes nothing. *)
Theorem select_address_candidate (m : msg) (s : store) :
  (truthy (address_attempt (context s)) = false ->
     start_candidate m s = if is_retry m then STARTING_ADDRESS - 1 else STARTING_ADDRESS) /\
  (forall c, address_attempt (context s) = val c -> c <> 0 ->
     start_candidate m s = if is_retry m then c - 1 else c) /\
  exists r effs,
    select_address m s = (Normal r, s, effs) /\
    assignments effs = [] /\
    r <= start_candidate m s /\
    (forall x, r < x <= start_candidate m s -> In x (used_set s) /\ MIN_ADDRESS <= x) /\
    (In r (used_set s) -> r < MIN_ADDRESS).
Proof.
  split; [| split].
  - unfold start_candidate, previous_candidate.
    destruct (address_attempt (context s)) as [| | n]; cbn; try reflexivity.
    destruct (n =? 0); [reflexivity | discriminate].
  - unfold start_candidate, previous_candidate. intros c -> Hc.
    apply Z.eqb_neq in Hc. rewrite Hc. reflexivity.
  - destruct (select_address_run m s) as (r & effs & Hr & Ha & _ & H).
    exists r, effs. auto.
Qed.

Lemma select_address_candidate_witness :
  start_candidate retryMsg attempt_220 = 219 /\
  start_candidate empty_msg attempt_220 = 220 /\
  start_candidate empty_msg empty_store = 223.
Proof.
  split; [| split].
  - refine (proj1 (proj2 (select_address_candidate retryMsg attempt_220)) 220 _ _).
    + reflexivity.
    + discriminate.
  - refine (proj1 (proj2 (select_address_candidate empty_msg attempt_220)) 220 _ _).
    + reflexivity.
    + discriminate.
  - refine (proj1 (select_address_candidate empty_msg empty_store) _).
    reflexivity.
Defined.

(** Against C4 as the specification words it: with an attempt counter of
    220 and a message that is not a retry, the specification's rule
    ("otherwise decrement the previous candidate by 1") gives 219, while the
    node tries 220 again. *)
Lemma select_address_not_spec :
  nextCandidate_spec (Some 220) [] false = 219 /\
  value_of (select_address empty_msg attempt_220) = Normal 220 /\
  value_of (select_address empty_msg attempt_220)
    <> Normal (nextCandidate_spec (Some 220) [] false).
Proof.
  repeat split. vm_compute. discriminate.
Qed.

(** ** The request node *)

Lemma commits_app (e1 e2 : list effect) :
  commits (e1 ++ e2)%list = commits e1 || commits e2.
Proof. apply existsb_app. Qed.

Lemma handle_reset_run (m : msg) (s : store) :
  exists s1 effs,
    handle_reset m s = (Normal tt, s1, effs) /\
    commits effs = false /\
    flow s1 = flow s /\
    rvc_source_address (global s1) = rvc_source_address (global s) /\
    (if is_reset m
     then my_persistent_rvc_id (global s1) = null /\
          address_attempt (context s1) = null
     else s1 = s).
Proof.
  unfold handle_reset, is_reset.
  destruct (strict_eq (msg_topic m) (val "reset_device_id")); script;
    eexists; eexists; (split; [reflexivity |]); repeat split.
Qed.

Lemma get_device_name_run (randomSerial : Z) (s : store) :
  exists name effs,
    get_device_name randomSerial s =
      (Normal name,
       {| flow := flow s;
          global := {| my_persistent_rvc_id := val name;
                       rvc_source_address := rvc_source_address (global s) |};
          context := context s |}, effs) /\
    commits effs = false /\
    ((my_persistent_rvc_id (global s) = val name /\ name <> "") \/
     (truthy (my_persistent_rvc_id (global s)) = false /\
      name = generated_name randomSerial)).
Proof.
  unfold get_device_name, generated_name. script.
  destruct s as [f [id rsa] c]. cbn [global my_persistent_rvc_id rvc_source_address flow context].
  destruct id as [| | [| ch r]]; eexists; eexists;
    (split; [reflexivity |]); (split; [reflexivity |]); auto.
  left. split; [reflexivity | discriminate].
Qed.

Lemma request_run (r : Z) (m : msg) (s : store) :
  exists s2 name a,
    selected_candidate r m s = Normal a /\
    flow s2 = flow s /\
    rvc_source_address (global s2) = rvc_source_address (global s) /\
    my_persistent_rvc_id (global s2) = val name /\
    ((is_reset m = false /\ my_persistent_rvc_id (global s) = val name /\ name <> "") \/
     ((is_reset m = true \/ truthy (my_persistent_rvc_id (global s)) = false) /\
      name = generated_name r)) /\
    (if is_reset m then address_attempt (context s2) = null else context s2 = context s) /\
    a <= start_candidate m s2 /\
    (forall x, a < x <= start_candidate m s2 -> In x (used_set s) /\ MIN_ADDRESS <= x) /\
    (In a (used_set s) -> a < MIN_ADDRESS) /\
    exists effs,
      commits effs = false /\
      address_claim_request r m s =
        if a <? MIN_ADDRESS
        then (Normal return_null, claim_cleared s2, effs)
        else (Normal (return_msg (claim_msg m a name)), broadcast_store s2 a name, effs).
Proof.
  destruct (handle_reset_run m s) as (s1 & e1 & R1 & C1 & F1 & A1 & K1).
  destruct (get_device_name_run r s1) as (name & e2 & R2 & C2 & N2).
  set (s2 := {| flow := flow s1;
                global := {| my_persistent_rvc_id := val name;
                             rvc_source_address := rvc_source_address (global s1) |};
                context := context s1 |}) in *.
  destruct (select_address_run m s2) as (a & e3 & R3 & _ & C3 & Hle & Hsk & Hex).
  exists s2, name, a.
  assert (U : used_set s2 = used_set s) by (unfold used_set; cbn [s2 flow]; now rewrite F1).
  rewrite U in Hsk, Hex.
  split.
  { unfold selected_candidate, bind. rewrite R1. cbv beta iota.
    rewrite R2. cbv beta iota. rewrite R3. reflexivity. }
  split; [exact F1 |]. split; [exact A1 |]. split; [reflexivity |].
  split.
  { destruct (is_reset m) eqn:Rs.
    - destruct K1 as [K1 _].
      destruct N2 as [[E Ne] | [_ E]]; [rewrite K1 in E; discriminate |].
      right. auto.
    - subst s1. destruct N2 as [[E Ne] | [T E]]; [left | right]; auto. }
  split.
  { destruct (is_reset m); [apply K1 | now subst s1]. }
  split; [exact Hle |]. split; [exact Hsk |]. split; [exact Hex |].
  unfold address_claim_request, bind. rewrite R1. cbv beta iota.
  rewrite R2. cbv beta iota. rewrite R3. cbv beta iota.
  destruct (a <? MIN_ADDRESS); script; eexists; (split; [| reflexivity]).
  - rewrite !commits_app. rewrite C1, C2, C3. reflexivity.
  - rewrite !commits_app. rewrite C1, C2, C3. reflexivity.
Qed.

(** ** Pool exhaustion *)

(** With the claiming flag unset, frames and timer expiries are absorbed. *)
Lemma automatic_idle (e : event) (s : store) :
  automatic e ->
  truthy (claim_in_progress (flow s)) = false ->
  value_of (handle e s) = Normal return_null /\ store_of (handle e s) = s.
Proof.
  intros Ha Hc. destruct e as [r m | m | m | m]; [destruct Ha | | |]; cbn [handle].
  - unfold address_claim_monitor. script. rewrite Hc. split; reflexivity.
  - unfold address_claim_success. script.
    destruct (msg_claiming_address m); script; try rewrite Hc; split; reflexivity.
  - unfold store_claimed_address. script. rewrite Hc. split; reflexivity.
Qed.

Lemma idle_run (es : list event) :
  forall s,
    Forall automatic es ->
    truthy (claim_in_progress (flow s)) = false ->
    run es s = s /\ Forall (eq (Normal return_null)) (outputs es s).
Proof.
  induction es as [| e es IH]; intros s Ha Hc; cbn [run outputs].
  - split; constructor.
  - inversion Ha as [| ? ? He Hes]; subst.
    destruct (automatic_idle e s He Hc) as [V S].
    rewrite V, S. destruct (IH s Hes Hc) as [R O].
    split; [exact R | constructor; [reflexivity | exact O]].
Qed.

(** C5 : Pool exhaustion.  When the candidate [address_claim_request]
    selects is below MIN_ADDRESS (208), the node returns no message (no
    claim frame), leaves [claim_in_progress] at [false], and from the
    resulting store no sequence of frames and timer expiries produces any
    message or changes any store: only a new message into the request node
    can restart the cycle. *)
Theorem pool_exhausted_terminal (r : Z) (m : msg) (s : store) (a : Z) :
  selected_candidate r m s = Normal a ->
  a < MIN_ADDRESS ->
  value_of (address_claim_request r m s) = Normal return_null /\
  claim_in_progress (flow (store_of (address_claim_request r m s))) = val false /\
  (forall es,
     Forall automatic es ->
     run es (store_of (address_claim_request r m s))
       = store_of (address_claim_request r m s) /\
     Forall (eq (Normal return_null))
       (outputs es (store_of (address_claim_request r m s)))).
Proof.
  intros Hsel Hlt.
  destruct (request_run r m s)
    as (s2 & name & a' & Hsel' & _ & _ & _ & _ & _ & _ & _ & _ & effs & _ & R).
  rewrite Hsel in Hsel'. injection Hsel' as <-.
  apply Z.ltb_lt in Hlt. rewrite Hlt in R. rewrite R.
  split; [reflexivity |]. split; [reflexivity |].
  intros es Hes. apply idle_run; [exact Hes | reflexivity].
Qed.

Lemma pool_exhausted_terminal_witness :
  value_of (address_claim_request 0 retryMsg lost_208) = Normal return_null.
Proof.
  refine (proj1 (pool_exhausted_terminal 0 retryMsg lost_208 207 _ _)).
  - vm_compute. reflexivity.
  - reflexivity.
Defined.

(** ** The claim frame *)

Lemma address_cases (a : Z) :
  MIN_ADDRESS <= a <= STARTING_ADDRESS ->
  a = 208 \/ a = 209 \/ a = 210 \/ a = 211 \/ a = 212 \/ a = 213 \/ a = 214 \/ a = 215 \/
  a = 216 \/ a = 217 \/ a = 218 \/ a = 219 \/ a = 220 \/ a = 221 \/ a = 222 \/ a = 223.
Proof. unfold MIN_ADDRESS, STARTING_ADDRESS. lia. Qed.

Lemma claim_can_id_format (a : Z) :
  MIN_ADDRESS <= a <= STARTING_ADDRESS ->
  String.length (claim_can_id a) = 8%nat /\
  all_hex_upper (claim_can_id a) = true /\
  hex_literal (claim_can_id a) None
    = Some (Z.lor (Z.lor (Z.shiftl 6 26) (Z.shiftl 0xEE00 8)) a).
Proof.
  intros H. pose proof (address_cases a H) as C.
  repeat (destruct C as [C | C]; [subst a; vm_compute; auto |]).
  subst a; vm_compute; auto.
Qed.

(** C9 : The claim frame.  Whenever [address_claim_request] claims an
    address [a] in [208, 223] under a stored 16-character NAME, the
    message it returns for the bus carries the text [id#NAME]: [id] is
    eight upper-case hexadecimal digits whose value is
    (6 << 26) | (0xEE00 << 8) | a, and the payload after [#] is the NAME
    itself, unchanged.  Address 223 with NAME 8000000000ABCDEF gives
    18EE00DF#8000000000ABCDEF. *)
Theorem claim_frame_format (r : Z) (m : msg) (s : store) (a : Z) (name : string) :
  MIN_ADDRESS <= a <= STARTING_ADDRESS ->
  String.length name = 16%nat ->
  my_persistent_rvc_id (global s) = val name ->
  is_reset m = false ->
  selected_candidate r m s = Normal a ->
  (exists out,
     value_of (address_claim_request r m s) = Normal (return_msg out) /\
     msg_topic out = val "can/send" /\
     msg_payload out = val (Text (claim_can_id a ++ "#" ++ name))) /\
  String.length (claim_can_id a) = 8%nat /\
  all_hex_upper (claim_can_id a) = true /\
  hex_literal (claim_can_id a) None
    = Some (Z.lor (Z.lor (Z.shiftl 6 26) (Z.shiftl 0xEE00 8)) a) /\
  value_of (address_claim_request 0 empty_msg (claiming_store 223 "8000000000ABCDEF"))
    = Normal (return_msg {| msg_topic := val "can/send";
                            msg_payload := val (Text "18EE00DF#8000000000ABCDEF");
                            msg_claiming_address := val 223;
                            msg_reset := undefined |}).
Proof.
  intros Ha Hn Hid Hr Hsel.
  destruct (claim_can_id_format a Ha) as (L & U & V).
  split; [| repeat split; try assumption; vm_compute; reflexivity].
  destruct (request_run r m s)
    as (s2 & name' & a' & Hsel' & _ & _ & _ & N & _ & _ & _ & _ & effs & _ & R).
  rewrite Hsel in Hsel'. injection Hsel' as <-.
  assert (name' = name) as ->.
  { destruct N as [(_ & E & _) | ([E | E] & _)].
    - rewrite Hid in E. now injection E.
    - rewrite Hr in E. discriminate.
    - rewrite Hid in E. destruct name as [| c t]; discriminate. }
  assert (F : (a <? MIN_ADDRESS) = false) by (apply Z.ltb_ge; lia).
  rewrite F in R. rewrite R.
  exists (claim_msg m a name). repeat split.
Qed.

Lemma claim_frame_format_witness :
  exists out,
    value_of (address_claim_request 0 empty_msg
                (claiming_store 223 "8000000000ABCDEF")) = Normal (return_msg out) /\
    msg_topic out = val "can/send" /\
    msg_payload out = val (Text (claim_can_id 223 ++ "#" ++ "8000000000ABCDEF")).
Proof.
  refine (proj1 (claim_frame_format 0 empty_msg (claiming_store 223 "8000000000ABCDEF")
                   223 "8000000000ABCDEF" _ _ _ _ _)).
  - unfold MIN_ADDRESS, STARTING_ADDRESS. lia.
  - reflexivity.
  - reflexivity.
  - reflexivity.
  - vm_compute. reflexivity.
Defined.

(** ** What each node may do to the stores *)

Lemma monitor_cases (m : msg) (s : store) :
  (store_of (address_claim_monitor m s) = s \/
   (truthy (claim_in_progress (flow s)) = true /\
    store_of (address_claim_monitor m s) = claim_cleared s)) /\
  commits (effects_of (address_claim_monitor m s)) = false /\
  broadcast_of (value_of (address_claim_monitor m s)) = None.
Proof.
  unfold address_claim_monitor. script.
  destruct (truthy (claim_in_progress (flow s))) eqn:Hc; [| auto].
  destruct (msg_payload m) as [| | [f | t]]; script; auto.
  - destruct (dataPayload f) as [| | raw]; script; auto.
    destruct (number_strict_eq _ _); [| auto].
    destruct (strict_eq _ _); [auto |].
    unfold BigInt_0x.
    destruct (hex_literal (ToString (our_device_name (flow s))) None); script; [| auto].
    destruct (hex_literal (toUpperCase raw) None); script; [| auto].
    destruct (_ <? _); cbn; auto.
Qed.

Lemma success_cases (m : msg) (s : store) :
  ((store_of (address_claim_success m s) = s /\
    commits (effects_of (address_claim_success m s)) = false) \/
   (exists a, truthy (claim_in_progress (flow s)) = true /\
              claiming_address (flow s) = val a /\
              msg_claiming_address m = val a /\
              store_of (address_claim_success m s) = committed s a)) /\
  broadcast_of (value_of (address_claim_success m s)) = None.
Proof.
  unfold address_claim_success. script.
  destruct (msg_claiming_address m) as [| | token] eqn:Ht; script; auto.
  destruct (truthy (claim_in_progress (flow s))) eqn:Hc; script; [| auto].
  destruct (strict_eq (claiming_address (flow s)) (val token)) eqn:E; script; [| auto].
  apply strict_eq_number in E. split; [right; exists token | reflexivity].
  repeat split; assumption.
Qed.

Lemma store_cases (m : msg) (s : store) :
  ((store_of (store_claimed_address m s) = s /\
    commits (effects_of (store_claimed_address m s)) = false) \/
   (exists a, truthy (claim_in_progress (flow s)) = true /\
              claiming_address (flow s) = val a /\
              store_of (store_claimed_address m s) = committed_by_store s a)) /\
  broadcast_of (value_of (store_claimed_address m s)) = None.
Proof.
  unfold store_claimed_address. script.
  destruct (truthy (claim_in_progress (flow s))) eqn:Hc; script; [| auto].
  destruct (claiming_address (flow s)) as [| | a] eqn:Ha; script; auto.
  split; [right; exists a | reflexivity].
  repeat split.
Qed.

(** ** The invariants hold in every reachable state *)

Lemma previous_candidate_bound (s : store) :
  address_ok (address_attempt (context s)) -> previous_candidate s <= STARTING_ADDRESS.
Proof.
  unfold previous_candidate, address_ok.
  destruct (address_attempt (context s)) as [| | n]; try lia.
  destruct (n =? 0); lia.
Qed.

Lemma inv_request (a : arbitration) (r : Z) (m : msg) :
  inv a -> 0 <= r < 0x1FFFFF -> inv (arb_step (Trigger r m) a).
Proof.
  intros I Hr.
  destruct (request_run r m (st a))
    as (s2 & name & c & _ & F2 & A2 & Id2 & N & K & Hle & _ & _ & effs & Ce & R).
  assert (Hname : is_device_name name = true).
  { destruct N as [(_ & E & _) | (_ & ->)].
    - pose proof (inv_id a I) as P. rewrite E in P. exact P.
    - apply generated_is_device_name. exact Hr. }
  assert (Hprev : address_ok (address_attempt (context s2))).
  { destruct (is_reset m); [rewrite K; exact Logic.I |].
    rewrite K. apply (inv_attempt a I). }
  assert (Hstart : c <= STARTING_ADDRESS).
  { pose proof (previous_candidate_bound s2 Hprev) as B.
    unfold start_candidate in Hle. destruct (is_retry m); lia. }
  unfold arb_step. cbn [handle]. rewrite R.
  destruct (c <? MIN_ADDRESS) eqn:E.
  - cbn [value_of store_of effects_of fst snd broadcast_of].
    constructor; cbn [st last_broadcast committed_in_cycle claim_cleared flow global context
                      claim_in_progress claiming_address our_device_name truthy prim_truthy
                      Prim_bool].
    + rewrite Id2. exact Hname.
    + rewrite F2. apply (inv_name a I).
    + exact Hprev.
    + discriminate.
    + rewrite F2. apply (inv_last a I).
    + apply (inv_range a I).
    + discriminate.
    + rewrite Ce, orb_false_r, A2. apply (inv_committed a I).
  - apply Z.ltb_ge in E.
    cbn. constructor; cbn.
    + rewrite Id2. exact Hname.
    + exact Hname.
    + lia.
    + intros _. split; eauto.
    + intros x Hx. injection Hx as <-. reflexivity.
    + intros x Hx. injection Hx as <-. lia.
    + reflexivity.
    + discriminate.
Qed.

Lemma inv_monitor (a : arbitration) (m : msg) :
  inv a -> inv (arb_step (ClaimFrame m) a).
Proof.
  intros I.
  destruct (monitor_cases m (st a)) as ([S | [Hc S]] & C & B);
    unfold arb_step; cbn [handle]; rewrite B, S, C, orb_false_r;
    constructor; cbn; try apply I; discriminate.
Qed.

Lemma inv_success (a : arbitration) (m : msg) :
  inv a -> inv (arb_step (TimerFired m) a).
Proof.
  intros I.
  destruct (success_cases m (st a)) as ([[S C] | (x & Hc & Hx & _ & S)] & B);
    unfold arb_step; cbn [handle]; rewrite B, S.
  - rewrite C, orb_false_r. constructor; cbn; apply I.
  - constructor; cbn; try apply I; try discriminate; try exact Logic.I.
    intros _. exists x. split; [reflexivity | apply I; exact Hx].
Qed.

Lemma inv_store (a : arbitration) (m : msg) :
  inv a -> inv (arb_step (TimerFiredStore m) a).
Proof.
  intros I.
  destruct (store_cases m (st a)) as ([[S C] | (x & Hc & Hx & S)] & B);
    unfold arb_step; cbn [handle]; rewrite B, S.
  - rewrite C, orb_false_r. constructor; cbn; apply I.
  - constructor; cbn; try apply I; try discriminate.
    intros _. exists x. split; [reflexivity | apply I; exact Hx].
Qed.

Lemma inv_reachable (a : arbitration) : reachable a -> inv a.
Proof.
  induction 1 as [s (Hc & Ha & Hn & Ht & Hid) | a e _ IH He].
  - constructor; cbn.
    + destruct Hid as [-> | (n & -> & Hd)]; [exact I | exact Hd].
    + rewrite Hn. exact I.
    + rewrite Ht. exact I.
    + rewrite Hc. discriminate.
    + rewrite Ha. discriminate.
    + discriminate.
    + reflexivity.
    + discriminate.
  - destruct e as [r m | m | m | m].
    + apply inv_request; assumption.
    + apply inv_monitor; assumption.
    + apply inv_success; assumption.
    + apply inv_store; assumption.
Qed.

Lemma reachable_run (es : list event) :
  forall a, reachable a -> Forall event_ok es -> reachable (arb_run es a).
Proof.
  induction es as [| e es IH]; intros a Ha Hes; cbn [arb_run].
  - exact Ha.
  - inversion Hes as [| ? ? He Hes']; subst.
    apply IH; [apply reachable_step; assumption | assumption].
Qed.

Lemma initial_empty_store : initial empty_store.
Proof. unfold initial. cbn. repeat split. left. reflexivity. Qed.

Lemma reachable_claiming_223 : reachable claiming_223.
Proof.
  apply reachable_run.
  - apply reachable_init. exact initial_empty_store.
  - repeat constructor; cbn; lia.
Defined.

(** ** Self-echo *)

(** C3 : Self-echo immunity.  In every reachable state, a claim frame
    whose identity is exactly [our_device_name] leaves the monitor without
    any effect: nothing is returned, no store is written (in particular
    [claim_in_progress] is not cleared), so the armed timer decides. *)
Theorem self_echo_immunity (a : arbitration) (m : msg) (f : frame) (name : string) :
  reachable a ->
  msg_payload m = val (Decoded f) ->
  dataPayload f = val name ->
  our_device_name (flow (st a)) = val name ->
  address_claim_monitor m (st a) = (Normal return_null, st a, []).
Proof.
  intros Hr Hp Hd Hn.
  pose proof (inv_name a (inv_reachable a Hr)) as N. rewrite Hn in N. cbn in N.
  pose proof (is_name_fixed name (device_name_is_name name N)) as U.
  unfold address_claim_monitor. script.
  destruct (truthy (claim_in_progress (flow (st a)))); [| reflexivity].
  rewrite Hp. script. rewrite Hd. script. rewrite U, Hn.
  destruct (number_strict_eq _ _); [| reflexivity].
  unfold strict_eq. cbn [prim_eqb Prim_string]. rewrite String.eqb_refl. reflexivity.
Qed.

Lemma self_echo_immunity_witness :
  address_claim_monitor (frame_msg "DF" "80000000000ABCDE") (st claiming_223)
  = (Normal return_null, st claiming_223, []).
Proof.
  refine (self_echo_immunity claiming_223 (frame_msg "DF" "80000000000ABCDE")
            {| dataPayload := val "80000000000ABCDE"; sourceAddress := val "DF" |}
            "80000000000ABCDE" reachable_claiming_223 _ _ _).
  - reflexivity.
  - reflexivity.
  - vm_compute. reflexivity.
Defined.

(** ** The state invariant *)

(** C8 : State invariant.  The invariant [inv] holds at process start and
    is preserved by every operation (request/broadcast, conflict monitor,
    either timer handler); so in every reachable state: the claiming flag
    and a committed address written by the active claim cycle (the one the
    latest broadcast opened) never hold together; a committed address of
    the active cycle is the address last broadcast; [claiming_address],
    whenever it holds an address, holds the address most recently
    broadcast, which lies in [208, 223]; and while claiming it does hold
    one. *)
Theorem claim_progress_invariant :
  (forall s, initial s -> inv (arb_start s)) /\
  (forall a e, inv a -> event_ok e -> inv (arb_step e a)) /\
  (forall a,
     reachable a ->
     ~ (truthy (claim_in_progress (flow (st a))) = true /\ committed_in_cycle a = true) /\
     (committed_in_cycle a = true ->
      exists x, rvc_source_address (global (st a)) = val x /\ last_broadcast a = Some x) /\
     (forall x, claiming_address (flow (st a)) = val x ->
                last_broadcast a = Some x /\ MIN_ADDRESS <= x <= STARTING_ADDRESS) /\
     (truthy (claim_in_progress (flow (st a))) = true ->
      exists x, claiming_address (flow (st a)) = val x)).
Proof.
  split; [| split].
  - intros s Hs. apply inv_reachable. apply reachable_init. exact Hs.
  - intros a e Ha He. destruct e as [r m | m | m | m].
    + apply inv_request; assumption.
    + apply inv_monitor; assumption.
    + apply inv_success; assumption.
    + apply inv_store; assumption.
  - intros a Hr. pose proof (inv_reachable a Hr) as I.
    split; [| split; [| split]].
    + intros [Hc Hk]. rewrite (inv_cycle a I Hc) in Hk. discriminate.
    + apply (inv_committed a I).
    + intros x Hx. pose proof (inv_last a I x Hx) as L.
      split; [exact L | exact (inv_range a I x L)].
    + intros Hc. apply (inv_claiming a I Hc).
Qed.

Lemma claim_progress_invariant_witness :
  last_broadcast claiming_223 = Some 223 /\ MIN_ADDRESS <= 223 <= STARTING_ADDRESS.
Proof.
  refine (proj1 (proj2 (proj2
    (proj2 (proj2 claim_progress_invariant) claiming_223 reachable_claiming_223)))
    223 _).
  vm_compute. reflexivity.
Defined.

(** The committed address is not erased when a later cycle starts: after a
    commit of 223 and a new trigger, the claiming flag is set while
    [rvc_source_address] still holds 223 (written by the earlier cycle). *)
Lemma committed_address_outlives_cycle :
  reachable reclaim_after_commit /\
  truthy (claim_in_progress (flow (st reclaim_after_commit))) = true /\
  rvc_source_address (global (st reclaim_after_commit)) = val 223 /\
  committed_in_cycle reclaim_after_commit = false.
Proof.
  split.
  - apply reachable_run.
    + apply reachable_init. exact initial_empty_store.
    + repeat constructor; cbn; lia.
  - vm_compute. auto.
Qed.

(** ** The two success scripts *)

Lemma device_name_not_claim_data (name : string) :
  is_device_name name = true -> name <> addressClaimData.
Proof.
  intros H ->. vm_compute in H. discriminate.
Qed.

Lemma store_claimed_address_run (m : msg) (s : store) (a : Z) :
  truthy (claim_in_progress (flow s)) = true ->
  claiming_address (flow s) = val a ->
  value_of (store_claimed_address m s)
    = Normal (return_msg {| msg_topic := val "can/tx";
                            msg_payload := val (Text (store_can_id a ++ "#" ++ addressClaimData));
                            msg_claiming_address := msg_claiming_address m;
                            msg_reset := msg_reset m |}) /\
  store_of (store_claimed_address m s) = committed_by_store s a /\
  assignments (effects_of (store_claimed_address m s))
    = [(Global, "rvc_source_address"); (Flow, "claim_in_progress");
       (Flow, "claiming_address")].
Proof.
  intros Hc Ha. unfold store_claimed_address. script. rewrite Hc, Ha. script.
  repeat split.
Qed.

(** The identifier the second script prints for a pool address: eight
    upper-case hexadecimal digits, the value its shifts make. *)
Lemma store_can_id_pool (a : Z) :
  MIN_ADDRESS <= a <= STARTING_ADDRESS ->
  String.length (store_can_id a) = 8%nat /\
  all_hex_upper (store_can_id a) = true /\
  parseInt16 (store_can_id a) = Some (6 * 2 ^ 26 + 0xEE * 2 ^ 18 + a).
Proof.
  intros H. pose proof (address_cases a H) as C.
  repeat (destruct C as [C | C]; [subst a; vm_compute; auto |]).
  subst a; vm_compute; auto.
Qed.

(** C6 : Two success paths.  For a live claim of address [x] whose timer
    fires with the matching token, [address_claim_success] commits [x] and
    returns no message, whereas [store_claimed_address] writes the commit
    ([rvc_source_address], then the two flags) and returns, as the value of
    the script, a bus message on topic can/tx: an identifier of eight
    upper-case hexadecimal digits, of value (6 << 26) | (0xEE << 18) | x as
    the script's shifts make it, then [#] and the constant
    C3A1F00700000000, which differs from the node's own NAME.  The two
    scripts are therefore not equivalent. *)
Theorem success_paths_diverge (a : arbitration) (m : msg) (x : Z) :
  reachable a ->
  truthy (claim_in_progress (flow (st a))) = true ->
  claiming_address (flow (st a)) = val x ->
  msg_claiming_address m = val x ->
  value_of (address_claim_success m (st a)) = Normal return_null /\
  store_of (address_claim_success m (st a)) = committed (st a) x /\
  value_of (store_claimed_address m (st a))
    = Normal (return_msg {| msg_topic := val "can/tx";
                            msg_payload := val (Text (store_can_id x ++ "#" ++ addressClaimData));
                            msg_claiming_address := val x;
                            msg_reset := msg_reset m |}) /\
  store_of (store_claimed_address m (st a)) = committed_by_store (st a) x /\
  assignments (effects_of (store_claimed_address m (st a)))
    = [(Global, "rvc_source_address"); (Flow, "claim_in_progress");
       (Flow, "claiming_address")] /\
  String.length (store_can_id x) = 8%nat /\
  all_hex_upper (store_can_id x) = true /\
  parseInt16 (store_can_id x) = Some (6 * 2 ^ 26 + 0xEE * 2 ^ 18 + x) /\
  addressClaimData = "C3A1F00700000000" /\
  (exists name, our_device_name (flow (st a)) = val name /\ name <> addressClaimData) /\
  value_of (address_claim_success m (st a)) <> value_of (store_claimed_address m (st a)).
Proof.
  intros Hr Hc Hx Ht.
  pose proof (inv_reachable a Hr) as I.
  destruct (store_claimed_address_run m (st a) x Hc Hx) as (V & S & W).
  assert (Vs : value_of (address_claim_success m (st a)) = Normal return_null /\
               store_of (address_claim_success m (st a)) = committed (st a) x).
  { unfold address_claim_success. rewrite Ht. script. rewrite Hc.
    rewrite (proj2 (strict_eq_number _ _) Hx). split; reflexivity. }
  destruct Vs as [Vs Ss].
  assert (P : MIN_ADDRESS <= x <= STARTING_ADDRESS)
    by (apply (inv_range a I); apply (inv_last a I); exact Hx).
  destruct (store_can_id_pool x P) as (L & U & N).
  rewrite Vs, Ss, V, S, W, Ht.
  split; [reflexivity |]. split; [reflexivity |]. split; [reflexivity |].
  split; [reflexivity |]. split; [reflexivity |].
  split; [exact L |]. split; [exact U |]. split; [exact N |].
  split; [reflexivity |]. split.
  - destruct (inv_claiming a I Hc) as [[name Hn] _].
    exists name. split; [exact Hn |].
    apply device_name_not_claim_data.
    pose proof (inv_name a I) as Nm. rewrite Hn in Nm. exact Nm.
  - discriminate.
Qed.

Lemma success_paths_diverge_witness :
  value_of (address_claim_success (timer_msg 223) (st claiming_223))
  <> value_of (store_claimed_address (timer_msg 223) (st claiming_223)).
Proof.
  refine (proj2 (proj2 (proj2 (proj2 (proj2 (proj2 (proj2 (proj2 (proj2 (proj2
    (success_paths_diverge claiming_223 (timer_msg 223) 223
       reachable_claiming_223 _ _ _))))))))))).
  - vm_compute. reflexivity.
  - vm_compute. reflexivity.
  - reflexivity.
Defined.

(** Against C6 as the specification words it ("re-broadcasts a claim frame
    ... before committing the address").  For the claim of 223 in flight,
    the message [store_claimed_address] returns is
    1BB800DF#C3A1F00700000000: its identifier is not the claim identifier
    (6 << 26) | (0xEE00 << 8) | address of the specification, which the
    request node's 18EE00DF is; and the message is the value the script
    returns, after its three writes, so it leaves the node with
    [rvc_source_address] already set to 223. *)
Lemma rebroadcast_not_claim_frame :
  value_of (store_claimed_address (timer_msg 223) (st claiming_223))
    = Normal (return_msg {| msg_topic := val "can/tx";
                            msg_payload := val (Text "1BB800DF#C3A1F00700000000");
                            msg_claiming_address := val 223;
                            msg_reset := undefined |}) /\
  store_can_id 223 = "1BB800DF" /\
  is_claim_identifier_spec (store_can_id 223) = false /\
  claim_can_id 223 = "18EE00DF" /\
  is_claim_identifier_spec (claim_can_id 223) = true /\
  assignments (effects_of (store_claimed_address (timer_msg 223) (st claiming_223)))
    = [(Global, "rvc_source_address"); (Flow, "claim_in_progress");
       (Flow, "claiming_address")] /\
  rvc_source_address
    (global (store_of (store_claimed_address (timer_msg 223) (st claiming_223))))
    = val 223.
Proof. vm_compute. repeat split. Qed.

(** The identifier the second script builds shifts the DGN high byte by 18
    bits; for address 223 its message is 1BB800DF#C3A1F00700000000. *)
Lemma store_claimed_address_frame :
  store_can_id 223 ++ "#" ++ addressClaimData = "1BB800DF#C3A1F00700000000".
Proof. vm_compute. reflexivity. Qed.

(** ** The stale timer *)

(** C7 : [store_claimed_address] never looks at the timer's address token:
    whenever the claiming flag is set and [claiming_address] holds an
    address, any timer message makes it commit that address and clear the
    flags.  There is a run (claim 223, lose it, claim 222) after which the
    timer armed for 223 fires first: the script commits 222, whose own timer
    has not fired, while [address_claim_success] ignores the same
    message. *)
Theorem store_timer_ignores_token :
  (forall m s x,
     truthy (claim_in_progress (flow s)) = true ->
     claiming_address (flow s) = val x ->
     store_of (store_claimed_address m s) = committed_by_store s x /\
     rvc_source_address (global (store_of (store_claimed_address m s))) = val x /\
     claim_in_progress (flow (store_of (store_claimed_address m s))) = val false /\
     claiming_address (flow (store_of (store_claimed_address m s))) = null) /\
  (exists es stale,
     initial empty_store /\ Forall event_ok es /\ Forall (fun e => ~ is_timer e) es /\
     nth_error (outputs es empty_store) 0 = Some (Normal (return_msg stale)) /\
     msg_claiming_address stale = val 223 /\
     truthy (claim_in_progress (flow (run es empty_store))) = true /\
     claiming_address (flow (run es empty_store)) = val 222 /\
     rvc_source_address (global (run es empty_store)) = undefined /\
     rvc_source_address
       (global (store_of (store_claimed_address stale (run es empty_store)))) = val 222 /\
     no_op (address_claim_success stale (run es empty_store)) return_null
           (run es empty_store)).
Proof.
  split.
  - intros m s x Hc Hx.
    destruct (store_claimed_address_run m s x Hc Hx) as (_ & S & _).
    rewrite S. repeat split.
  - exists lost_then_retry.
    exists (claim_msg empty_msg 223 (generated_name 0xABCDE)).
    split; [exact initial_empty_store |].
    split; [repeat constructor; cbn; lia |].
    split; [repeat constructor; cbn; tauto |].
    vm_compute. repeat split.
Qed.

Lemma store_timer_ignores_token_witness :
  rvc_source_address
    (global (store_of (store_claimed_address (timer_msg 223)
                         (claiming_store 222 "8000000000ABCDEF")))) = val 222.
Proof.
  refine (proj1 (proj2 (proj1 store_timer_ignores_token (timer_msg 223)
                          (claiming_store 222 "8000000000ABCDEF") 222 _ _))).
  - reflexivity.
  - reflexivity.
Defined.

(** ** Malformed frames *)

Lemma monitor_missing_identity (m : msg) (f : frame) (s : store) :
  truthy (claim_in_progress (flow s)) = true ->
  msg_payload m = val (Decoded f) ->
  dataPayload f = undefined \/ dataPayload f = null ->
  address_claim_monitor m s = (Throw TypeError, s, []).
Proof.
  intros Hc Hp Hd. unfold address_claim_monitor. script. rewrite Hc, Hp. script.
  destruct Hd as [-> | ->]; reflexivity.
Qed.

Lemma monitor_missing_address (m : msg) (f : frame) (raw : string) (s : store) :
  msg_payload m = val (Decoded f) ->
  dataPayload f = val raw ->
  sourceAddress f = undefined \/ sourceAddress f = null ->
  address_claim_monitor m s = (Normal return_null, s, []).
Proof.
  intros Hp Hd Ha. unfold address_claim_monitor. script.
  destruct (truthy (claim_in_progress (flow s))); [| reflexivity].
  rewrite Hp. script. rewrite Hd. script.
  destruct Ha as [-> | ->]; reflexivity.
Qed.

(** C10 : A claim frame without identity bytes, received while a claim is
    in flight: [address_claim_monitor] does not log and return, it throws a
    TypeError at the unguarded [dataPayload.toUpperCase()]; the stores are
    as before.  A frame without source address is dropped without a log
    entry. *)
Theorem monitor_malformed_frame :
  address_claim_monitor frame_without_identity (claiming_store 223 "8000000000ABCDEF")
    = (Throw TypeError, claiming_store 223 "8000000000ABCDEF", []) /\
  address_claim_monitor frame_without_address (claiming_store 223 "8000000000ABCDEF")
    = (Normal return_null, claiming_store 223 "8000000000ABCDEF", []).
Proof.
  split.
  - apply (monitor_missing_identity _ {| dataPayload := undefined; sourceAddress := val "DF" |});
      auto.
  - apply (monitor_missing_address _
             {| dataPayload := val "7000000000112233"; sourceAddress := undefined |}
             "7000000000112233"); auto.
Qed.

(** ** The three scenarios of the specification *)

(** Scenario A: identity 8000000000ABCDEF, candidate 223, no competing
    frame before the timer fires. *)
Example scenario_A :
  outputs [Trigger 0 empty_msg; TimerFired (timer_msg 223)] restarted_store
    = [Normal (return_msg (claim_msg empty_msg 223 "8000000000ABCDEF"));
       Normal return_null] /\
  msg_payload (claim_msg empty_msg 223 "8000000000ABCDEF")
    = val (Text "18EE00DF#8000000000ABCDEF") /\
  rvc_source_address
    (global (run [Trigger 0 empty_msg; TimerFired (timer_msg 223)] restarted_store))
    = val 223.
Proof. vm_compute. repeat split. Qed.

(** Scenario B: the frame 18EE00DF#7000000000112233 arrives before the
    timer fires; the retry claims 222. *)
Example scenario_B :
  outputs [Trigger 0 empty_msg;
           ClaimFrame (frame_msg "DF" "7000000000112233");
           Trigger 0 retryMsg] restarted_store
    = [Normal (return_msg (claim_msg empty_msg 223 "8000000000ABCDEF"));
       Normal (return_array [retryMsg; resetTimerMsg]);
       Normal (return_msg (claim_msg retryMsg 222 "8000000000ABCDEF"))] /\
  msg_payload (claim_msg retryMsg 222 "8000000000ABCDEF")
    = val (Text "18EE00DE#8000000000ABCDEF").
Proof. vm_compute. repeat split. Qed.

(** Scenario C: the candidate reaches 207. *)
Example scenario_C :
  selected_candidate 0 retryMsg lost_208 = Normal 207 /\
  value_of (address_claim_request 0 retryMsg lost_208) = Normal return_null /\
  claim_in_progress (flow (store_of (address_claim_request 0 retryMsg lost_208)))
    = val false.
Proof. vm_compute. repeat split. Qed.

(** * Further properties of the address-claim nodes *)

(** ** Printing and reading hexadecimal numbers *)

Lemma upper_char_digit (c : ascii) : hex_digit (upper_char c) = hex_digit c.
Proof. destruct c as [[] [] [] [] [] [] [] []]; reflexivity. Qed.

Lemma upper_char_space (c : ascii) : is_space (upper_char c) = is_space c.
Proof. destruct c as [[] [] [] [] [] [] [] []]; reflexivity. Qed.

Lemma all_spaces_upper (s : string) : all_spaces (toUpperCase s) = all_spaces s.
Proof.
  induction s as [| c r IH]; cbn [toUpperCase all_spaces]; [reflexivity |].
  now rewrite upper_char_space, IH.
Qed.

(** Upper-casing does not change what a hexadecimal literal denotes. *)
Lemma hex_literal_upper (s : string) :
  forall acc, hex_literal (toUpperCase s) acc = hex_literal s acc.
Proof.
  induction s as [| c r IH]; intros acc; [reflexivity |].
  cbn [toUpperCase hex_literal]. rewrite upper_char_digit.
  destruct (hex_digit c); [apply IH |].
  change (String (upper_char c) (toUpperCase r)) with (toUpperCase (String c r)).
  now rewrite all_spaces_upper.
Qed.

Lemma hex_literal_from_zero (s : string) (n : Z) :
  hex_literal s None = Some n -> hex_literal s (Some 0) = Some n.
Proof.
  destruct s as [| c r]; cbn [hex_literal]; [discriminate |].
  destruct (hex_digit c); [auto |].
  destruct (all_spaces (String c r)); discriminate.
Qed.

(** Leading zeros do not change it either. *)
Lemma hex_literal_zeros (k : nat) (s : string) (n : Z) :
  hex_literal s None = Some n ->
  hex_literal (repeat_char "0" k ++ s) None = Some n.
Proof.
  intros H. induction k as [| k IH]; [exact H |].
  cbn [repeat_char append hex_literal]. change (hex_digit "0") with (Some 0).
  cbv beta iota. apply hex_literal_from_zero. exact IH.
Qed.

(** Round trip: a non-negative integer printed with [toString(16)], padded
    and upper-cased reads back as itself. *)
Lemma hex_literal_print (n : Z) (k : nat) :
  0 <= n ->
  hex_literal (toUpperCase (padStart (toString16 n) k "0")) None = Some n.
Proof.
  intros Hn. rewrite hex_literal_upper. unfold padStart.
  apply hex_literal_zeros. apply toString16_parse. exact Hn.
Qed.

(** With a prefix already read, the remaining digits shift it left. *)
Lemma hex_literal_shift (s : string) :
  all_hex_upper s = true ->
  forall p, exists v,
    0 <= v < 16 ^ Z.of_nat (String.length s) /\
    hex_literal s (Some 0) = Some v /\
    (0 <= p -> hex_literal s (Some p) = Some (p * 16 ^ Z.of_nat (String.length s) + v)).
Proof.
  induction s as [| c r IH]; intros H p.
  - exists 0. cbn. repeat split; try lia. intros _. f_equal. lia.
  - cbn [all_hex_upper] in H. apply andb_true_iff in H. destruct H as [Hc Hr].
    destruct (is_hex_upper_digit c Hc) as [Ed Bd].
    set (d := digit_value c) in *.
    destruct (IH Hr d) as (v & Bv & E0 & Ed').
    destruct (IH Hr (16 * p + d)) as (v' & Bv' & E0' & Ep).
    rewrite E0 in E0'. injection E0' as <-.
    assert (P : 0 < 16 ^ Z.of_nat (String.length r)) by (apply Z.pow_pos_nonneg; lia).
    assert (S16 : 16 ^ Z.of_nat (String.length (String c r))
                  = 16 * 16 ^ Z.of_nat (String.length r)).
    { cbn [String.length]. rewrite Nat2Z.inj_succ, Z.pow_succ_r by lia. reflexivity. }
    exists (d * 16 ^ Z.of_nat (String.length r) + v).
    rewrite S16. cbn [hex_literal]. rewrite Ed.
    split; [nia |]. split.
    + change (16 * 0 + d) with d. apply Ed'. lia.
    + intros Hp. rewrite Ep by lia. f_equal. ring.
Qed.

Lemma hex_literal_some_none (s : string) (v : Z) :
  s <> "" -> all_hex_upper s = true ->
  hex_literal s (Some 0) = Some v -> hex_literal s None = Some v.
Proof.
  destruct s as [| c r]; [congruence |]. intros _ H.
  cbn [all_hex_upper] in H. apply andb_true_iff in H. destruct H as [Hc _].
  cbn [hex_literal]. destruct (is_hex_upper_digit c Hc) as [-> _]. auto.
Qed.

(** ** The request node: identity *)

Lemma generated_name_value (r : Z) :
  0 <= r < 0x1FFFFF -> name_value (generated_name r) = 2 ^ 63 + r.
Proof.
  intros Hr.
  pose proof (generated_is_device_name r Hr) as D. fold (generated_name r) in D.
  pose proof (device_name_is_name _ D) as N.
  pose proof (hex_literal_name _ N) as V.
  destruct (is_name_parts _ N) as [L A].
  unfold generated_name in *.
  set (h := toUpperCase (padStart (toString16 r) 6 "0")) in *.
  rewrite all_hex_upper_app in A. apply andb_true_iff in A. destruct A as [_ Ah].
  rewrite length_app in L. cbn [String.length] in L.
  assert (Lh : String.length h = 6%nat) by lia.
  assert (Vh : hex_literal h None = Some r) by (apply hex_literal_print; lia).
  destruct (hex_literal_shift h Ah 0x8000000000) as (v & _ & E0 & Ep).
  rewrite (hex_literal_from_zero h r Vh) in E0. injection E0 as <-.
  assert (E : hex_literal ("8000000000" ++ h) None = hex_literal h (Some 0x8000000000))
    by reflexivity.
  rewrite E, Ep, Lh in V by lia.
  apply (f_equal (fun o => match o with Some x => x | None => 0 end)) in V.
  cbv beta iota in V. rewrite <- V.
  change (16 ^ Z.of_nat 6) with 16777216. change (2 ^ 63) with 9223372036854775808. lia.
Qed.

(** X1 : a freshly drawn identity.  When no identity is stored, or on the
    reset command, the request node stores a NAME whose 64-bit value is
    2^63 plus the serial it drew. *)
Theorem fresh_identity_value (r : Z) (m : msg) (s : store) :
  0 <= r < 0x1FFFFF ->
  truthy (my_persistent_rvc_id (global s)) = false \/ is_reset m = true ->
  exists name,
    my_persistent_rvc_id (global (store_of (address_claim_request r m s))) = val name /\
    is_device_name name = true /\
    name_value name = 2 ^ 63 + r.
Proof.
  intros Hr Hf.
  destruct (request_run r m s)
    as (s2 & name & c & _ & _ & _ & Id2 & N & _ & _ & _ & _ & effs & _ & R).
  assert (name = generated_name r) as ->.
  { destruct N as [(Rs & E & Ne) | (_ & E)]; [| exact E].
    destruct Hf as [Hf | Hf]; [| congruence].
    rewrite E in Hf. destruct name; [congruence | discriminate]. }
  exists (generated_name r).
  split; [| split; [apply generated_is_device_name; exact Hr
                   | apply generated_name_value; exact Hr]].
  rewrite R. destruct (c <? MIN_ADDRESS); exact Id2.
Qed.

Lemma fresh_identity_value_witness :
  exists name,
    my_persistent_rvc_id
      (global (store_of (address_claim_request 0xABCDE empty_msg empty_store))) = val name /\
    is_device_name name = true /\
    name_value name = 2 ^ 63 + 0xABCDE.
Proof.
  refine (fresh_identity_value 0xABCDE empty_msg empty_store _ _).
  - lia.
  - left. reflexivity.
Defined.

Lemma reset_not_retry (m : msg) : is_reset m = true -> is_retry m = false.
Proof.
  unfold is_reset, is_retry. destruct (msg_topic m) as [| | t]; try discriminate.
  cbn. intros E. apply String.eqb_eq in E. subst t. reflexivity.
Qed.

(** X2 : what a broadcast leaves behind.  Whenever the request node returns
    a message, the address [a] it claims is at least MIN_ADDRESS and not in
    the used set; the timer token on the message, [claiming_address] and
    the attempt counter all hold [a]; the flag is set; [our_device_name] is
    the stored identity, which is the payload after [#]; the committed
    address is untouched. *)
Theorem request_broadcast_consistent (r : Z) (m out : msg) (s : store) :
  value_of (address_claim_request r m s) = Normal (return_msg out) ->
  exists a name,
    MIN_ADDRESS <= a /\ ~ In a (used_set s) /\
    msg_topic out = val "can/send" /\
    msg_claiming_address out = val a /\
    msg_payload out = val (Text (claim_can_id a ++ "#" ++ name)) /\
    name <> "" /\
    store_of (address_claim_request r m s) =
      {| flow := {| claim_in_progress := val true;
                    claiming_address := val a;
                    our_device_name := val name;
                    used_addresses := used_addresses (flow s) |};
         global := {| my_persistent_rvc_id := val name;
                      rvc_source_address := rvc_source_address (global s) |};
         context := {| address_attempt := val a |} |}.
Proof.
  intros V.
  destruct (request_run r m s)
    as (s2 & name & a & _ & F2 & A2 & Id2 & N & _ & _ & _ & Hex & effs & _ & R).
  rewrite R in V |- *.
  destruct (a <? MIN_ADDRESS) eqn:E; [discriminate |].
  apply Z.ltb_ge in E. injection V as <-.
  exists a, name. split; [exact E |]. split; [intros Hin; specialize (Hex Hin); lia |].
  repeat (split; [reflexivity |]).
  split.
  - destruct N as [(_ & _ & Ne) | (_ & ->)]; [exact Ne | discriminate].
  - cbn [store_of fst snd]. unfold broadcast_store. rewrite F2.
    destruct s2 as [f2 [id2 rsa2] c2]. cbn in *. now subst.
Qed.

Lemma request_broadcast_consistent_witness :
  exists a name,
    MIN_ADDRESS <= a /\ ~ In a (used_set restarted_store) /\
    msg_topic (claim_msg empty_msg 223 "8000000000ABCDEF") = val "can/send" /\
    msg_claiming_address (claim_msg empty_msg 223 "8000000000ABCDEF") = val a /\
    msg_payload (claim_msg empty_msg 223 "8000000000ABCDEF")
      = val (Text (claim_can_id a ++ "#" ++ name)) /\
    name <> "" /\
    store_of (address_claim_request 0 empty_msg restarted_store) =
      {| flow := {| claim_in_progress := val true;
                    claiming_address := val a;
                    our_device_name := val name;
                    used_addresses := used_addresses (flow restarted_store) |};
         global := {| my_persistent_rvc_id := val name;
                      rvc_source_address := rvc_source_address (global restarted_store) |};
         context := {| address_attempt := val a |} |}.
Proof.
  refine (request_broadcast_consistent 0 empty_msg
            (claim_msg empty_msg 223 "8000000000ABCDEF") restarted_store _).
  vm_compute. reflexivity.
Defined.

(** X3 : the reset command.  On [reset_device_id] the node forgets both the
    stored identity and the attempt counter: it stores the identity drawn
    now, and its candidate is the first address at or below
    STARTING_ADDRESS that is free or below MIN_ADDRESS, whatever the counter
    held. *)
Theorem reset_starts_over (r : Z) (m : msg) (s : store) :
  is_reset m = true ->
  my_persistent_rvc_id (global (store_of (address_claim_request r m s)))
    = val (generated_name r) /\
  exists c,
    selected_candidate r m s = Normal c /\
    c <= STARTING_ADDRESS /\
    (forall x, c < x <= STARTING_ADDRESS -> In x (used_set s) /\ MIN_ADDRESS <= x) /\
    (In c (used_set s) -> c < MIN_ADDRESS).
Proof.
  intros Hr.
  destruct (request_run r m s)
    as (s2 & name & c & Hsel & _ & _ & Id2 & N & K & Hle & Hsk & Hex & effs & _ & R).
  rewrite Hr in K.
  assert (S : start_candidate m s2 = STARTING_ADDRESS).
  { unfold start_candidate, previous_candidate.
    rewrite (reset_not_retry m Hr), K. reflexivity. }
  rewrite S in Hle, Hsk.
  split.
  - destruct N as [(E & _) | (_ & ->)]; [congruence |].
    rewrite R. destruct (c <? MIN_ADDRESS); exact Id2.
  - exists c. auto.
Qed.

Lemma reset_starts_over_witness :
  my_persistent_rvc_id
    (global (store_of (address_claim_request 7
       {| msg_topic := val "reset_device_id"; msg_payload := undefined;
          msg_claiming_address := undefined; msg_reset := undefined |} lost_208)))
  = val (generated_name 7).
Proof.
  refine (proj1 (reset_starts_over 7 _ lost_208 _)).
  reflexivity.
Defined.

(** ** What frames and timers leave alone *)

Lemma automatic_keeps (e : event) (s : store) :
  automatic e ->
  context (store_of (handle e s)) = context s /\
  my_persistent_rvc_id (global (store_of (handle e s))) = my_persistent_rvc_id (global s) /\
  used_addresses (flow (store_of (handle e s))) = used_addresses (flow s).
Proof.
  intros Ha. destruct e as [r m | m | m | m]; [destruct Ha | | |]; cbn [handle].
  - destruct (monitor_cases m s) as ([-> | [_ ->]] & _); repeat split.
  - destruct (success_cases m s) as ([[-> _] | (x & _ & _ & _ & ->)] & _); repeat split.
  - destruct (store_cases m s) as ([[-> _] | (x & _ & _ & ->)] & _); repeat split.
Qed.

Lemma automatic_run_keeps (es : list event) :
  forall s,
    Forall automatic es ->
    context (run es s) = context s /\
    my_persistent_rvc_id (global (run es s)) = my_persistent_rvc_id (global s) /\
    used_addresses (flow (run es s)) = used_addresses (flow s).
Proof.
  induction es as [| e es IH]; intros s Ha; cbn [run]; [auto |].
  inversion Ha as [| ? ? He Hes]; subst.
  destruct (automatic_keeps e s He) as (C & I & U).
  destruct (IH (store_of (handle e s)) Hes) as (C' & I' & U').
  rewrite C', I', U'. auto.
Qed.

Lemma retry_not_reset (m : msg) : is_retry m = true -> is_reset m = false.
Proof.
  intros H. destruct (is_reset m) eqn:E; [| reflexivity].
  apply reset_not_retry in E. congruence.
Qed.

Lemma request_keeps_identity (r : Z) (m : msg) (s : store) (name : string) :
  is_reset m = false -> name <> "" ->
  my_persistent_rvc_id (global s) = val name ->
  my_persistent_rvc_id (global (store_of (address_claim_request r m s))) = val name.
Proof.
  intros Hr Hne Hid.
  destruct (request_run r m s)
    as (s2 & name' & c & _ & _ & _ & Id2 & N & _ & _ & _ & _ & effs & _ & R).
  assert (name' = name) as ->.
  { destruct N as [(_ & E & _) | ([E | E] & _)].
    - rewrite Hid in E. now injection E.
    - congruence.
    - rewrite Hid in E. destruct name; [congruence | discriminate]. }
  rewrite R. destruct (c <? MIN_ADDRESS); exact Id2.
Qed.

(** X4 : the identity persists.  Once a non-empty identity is stored, no
    sequence of starts, retries, claim frames and timer expiries changes
    it; only the reset command does. *)
Theorem identity_persists (es : list event) :
  forall (s : store) (name : string),
    name <> "" ->
    my_persistent_rvc_id (global s) = val name ->
    Forall (fun e => ~ is_reset_event e) es ->
    my_persistent_rvc_id (global (run es s)) = val name.
Proof.
  induction es as [| e es IH]; intros s name Hne Hid Hes; cbn [run]; [exact Hid |].
  inversion Hes as [| ? ? He Hes']; subst.
  apply IH; [exact Hne | | exact Hes'].
  destruct e as [r m | m | m | m].
  - cbn [handle]. apply request_keeps_identity; [| exact Hne | exact Hid].
    cbn in He. destruct (is_reset m); [exfalso; auto | reflexivity].
  - rewrite (proj1 (proj2 (automatic_keeps (ClaimFrame m) s I))). exact Hid.
  - rewrite (proj1 (proj2 (automatic_keeps (TimerFired m) s I))). exact Hid.
  - rewrite (proj1 (proj2 (automatic_keeps (TimerFiredStore m) s I))). exact Hid.
Qed.

Lemma identity_persists_witness :
  my_persistent_rvc_id (global (run lost_then_retry restarted_store))
  = val "8000000000ABCDEF".
Proof.
  refine (identity_persists lost_then_retry restarted_store "8000000000ABCDEF" _ _ _).
  - discriminate.
  - reflexivity.
  - repeat (apply Forall_cons; [intros H; cbn in H; (discriminate || contradiction) |]).
    apply Forall_nil.
Defined.

(** ** Retries *)

Lemma retry_run (r : Z) (m : msg) (s : store) :
  is_retry m = true ->
  exists c,
    c <= previous_candidate s - 1 /\
    (forall x, c < x <= previous_candidate s - 1 -> In x (used_set s) /\ MIN_ADDRESS <= x) /\
    (In c (used_set s) -> c < MIN_ADDRESS) /\
    used_addresses (flow (store_of (address_claim_request r m s))) = used_addresses (flow s) /\
    ((c < MIN_ADDRESS /\
      value_of (address_claim_request r m s) = Normal return_null /\
      context (store_of (address_claim_request r m s)) = context s) \/
     (MIN_ADDRESS <= c /\
      (exists out, value_of (address_claim_request r m s) = Normal (return_msg out) /\
                   msg_claiming_address out = val c) /\
      context (store_of (address_claim_request r m s)) = {| address_attempt := val c |})).
Proof.
  intros Hr.
  destruct (request_run r m s)
    as (s2 & name & c & _ & F2 & _ & _ & _ & K & Hle & Hsk & Hex & effs & _ & R).
  rewrite (retry_not_reset m Hr) in K.
  assert (S : start_candidate m s2 = previous_candidate s - 1).
  { unfold start_candidate, previous_candidate. rewrite Hr, K. reflexivity. }
  rewrite S in Hle, Hsk.
  exists c. split; [exact Hle |]. split; [exact Hsk |]. split; [exact Hex |].
  rewrite R. destruct (c <? MIN_ADDRESS) eqn:E.
  - apply Z.ltb_lt in E. split; [cbn; now rewrite F2 |]. left. auto.
  - apply Z.ltb_ge in E. split; [cbn; now rewrite F2 |]. right.
    split; [exact E |]. split; [| reflexivity].
    exists (claim_msg m c name). split; reflexivity.
Qed.

Lemma previous_candidate_attempt (s : store) (a : Z) :
  context s = {| address_attempt := val a |} -> a <> 0 -> previous_candidate s = a.
Proof.
  intros C Ha. unfold previous_candidate. rewrite C. cbn.
  apply Z.eqb_neq in Ha. now rewrite Ha.
Qed.

Lemma request_broadcast_context (r : Z) (m out : msg) (s : store) :
  value_of (address_claim_request r m s) = Normal (return_msg out) ->
  exists a,
    MIN_ADDRESS <= a /\ msg_claiming_address out = val a /\
    context (store_of (address_claim_request r m s)) = {| address_attempt := val a |}.
Proof.
  intros V.
  destruct (request_run r m s)
    as (s2 & name & a & _ & _ & _ & _ & _ & _ & _ & _ & _ & effs & _ & R).
  rewrite R in V |- *. destruct (a <? MIN_ADDRESS) eqn:E; [discriminate |].
  apply Z.ltb_ge in E. injection V as <-. exists a. repeat split. exact E.
Qed.

(** X5 : a retry goes down.  After a claim for [a] was broadcast, whatever
    frames and timer expiries follow, a retry that broadcasts again claims
    an address strictly below [a]. *)
Theorem retry_claims_lower_address
    (r r' : Z) (m m' out out' : msg) (s : store) (es : list event) (a c : Z) :
  value_of (address_claim_request r m s) = Normal (return_msg out) ->
  msg_claiming_address out = val a ->
  Forall automatic es ->
  is_retry m' = true ->
  value_of (address_claim_request r' m' (run es (store_of (address_claim_request r m s))))
    = Normal (return_msg out') ->
  msg_claiming_address out' = val c ->
  MIN_ADDRESS <= c < a.
Proof.
  intros V Ha Hes Hr V' Hc.
  destruct (request_broadcast_context r m out s V) as (a0 & Ma & Ta & C).
  rewrite Ha in Ta. injection Ta as <-.
  set (s1 := store_of (address_claim_request r m s)) in *.
  destruct (automatic_run_keeps es s1 Hes) as (C1 & _ & _).
  rewrite C in C1.
  destruct (retry_run r' m' (run es s1) Hr) as (c' & Hle & _ & _ & _ & [(_ & N & _) | (Mc & (o & Vo & To) & _)]).
  - rewrite N in V'. discriminate.
  - rewrite Vo in V'. injection V' as ->. rewrite Hc in To. injection To as <-.
    rewrite (previous_candidate_attempt (run es s1) a C1) in Hle
      by (unfold MIN_ADDRESS in Ma; lia).
    lia.
Qed.

Lemma retry_claims_lower_address_witness : MIN_ADDRESS <= 222 < 223.
Proof.
  refine (retry_claims_lower_address 0 0 empty_msg retryMsg
            (claim_msg empty_msg 223 "8000000000ABCDEF")
            (claim_msg retryMsg 222 "8000000000ABCDEF")
            restarted_store [ClaimFrame (frame_msg "DF" "7000000000112233")]
            223 222 _ _ _ _ _ _).
  - vm_compute. reflexivity.
  - reflexivity.
  - repeat constructor.
  - reflexivity.
  - vm_compute. reflexivity.
  - reflexivity.
Defined.

Lemma retry_exhausted_null (r : Z) (m : msg) (s : store) :
  retry_exhausted s -> is_retry m = true ->
  value_of (address_claim_request r m s) = Normal return_null /\
  retry_exhausted (store_of (address_claim_request r m s)).
Proof.
  intros (c & Hc & Hle & Hsk) Hr.
  destruct (retry_run r m s Hr)
    as (c' & Hle' & Hsk' & Hex' & U & [(Hlt & V & C) | (Mc & _ & _)]).
  - split; [exact V |]. exists c.
    unfold previous_candidate, used_set in *. rewrite C, U. auto.
  - exfalso.
    assert (R : c < c' <= previous_candidate s - 1) by lia.
    destruct (Hsk c' R) as [Hin _]. specialize (Hex' Hin). lia.
Qed.

Lemma retries_exhaust (es : list event) :
  forall s,
    Forall is_retry_event es -> es <> [] ->
    previous_candidate s - MIN_ADDRESS < Z.of_nat (List.length es) \/ retry_exhausted s ->
    last (outputs es s) (Throw TypeError) = Normal return_null.
Proof.
  induction es as [| e es IH]; intros s Hes Hne Hs; [congruence |].
  inversion Hes as [| ? ? He Hes']; subst.
  destruct e as [r m | m | m | m]; try contradiction. cbn in He.
  cbn [outputs handle].
  set (s1 := store_of (address_claim_request r m s)).
  assert (Next : es = [] \/ es <> []) by (destruct es; [left | right]; congruence).
  destruct Hs as [Hs | Hs].
  - destruct (retry_run r m s He)
      as (c & Hle & Hsk & Hex & U & [(Hlt & V & C) | (Mc & (o & Vo & To) & C)]).
    + destruct Next as [-> | Hn]; [exact V |].
      assert (L : last (outputs es s1) (Throw TypeError) = Normal return_null).
      { apply IH; [exact Hes' | exact Hn |]. right.
        exists c. unfold previous_candidate, used_set, s1 in *. rewrite C, U. auto. }
      cbn [last]. destruct (outputs es s1) eqn:O; [| exact L].
      destruct es; [congruence | discriminate].
    + assert (P : previous_candidate s1 = c).
      { apply previous_candidate_attempt; [exact C | unfold MIN_ADDRESS in Mc; lia]. }
      destruct Next as [-> | Hn].
      { cbn [List.length] in Hs. lia. }
      assert (L : last (outputs es s1) (Throw TypeError) = Normal return_null).
      { apply IH; [exact Hes' | exact Hn |]. left.
        cbn [List.length] in Hs. rewrite P. lia. }
      cbn [last]. destruct (outputs es s1) eqn:O; [| exact L].
      destruct es; [congruence | discriminate].
  - destruct (retry_exhausted_null r m s Hs He) as [V E].
    destruct Next as [-> | Hn]; [exact V |].
    assert (L : last (outputs es s1) (Throw TypeError) = Normal return_null).
    { apply IH; [exact Hes' | exact Hn | right; exact E]. }
    cbn [last]. destruct (outputs es s1) eqn:O; [| exact L].
    destruct es; [congruence | discriminate].
Qed.

(** X6 : retries are bounded by the pool.  From any store whose attempt
    counter is unset or within [208, 223], the sixteenth (or any later)
    retry in a row finds the pool exhausted and returns no message. *)
Theorem retries_bounded_by_pool (es : list event) (s : store) :
  address_ok (address_attempt (context s)) ->
  Forall is_retry_event es ->
  (16 <= List.length es)%nat ->
  last (outputs es s) (Throw TypeError) = Normal return_null.
Proof.
  intros Ha Hes Hl.
  apply retries_exhaust; [exact Hes | destruct es; [cbn in Hl; lia | congruence] |].
  left. pose proof (previous_candidate_bound s Ha) as B.
  unfold MIN_ADDRESS, STARTING_ADDRESS in *. lia.
Qed.

Lemma retries_bounded_by_pool_witness :
  last (outputs sixteen_retries restarted_store) (Throw TypeError) = Normal return_null.
Proof.
  refine (retries_bounded_by_pool sixteen_retries restarted_store _ _ _).
  - exact I.
  - repeat (apply Forall_cons; [reflexivity |]). apply Forall_nil.
  - cbn. lia.
Defined.

(** ** The monitor on arbitrary input *)

(** X7 : the three outcomes of the monitor.  For every message and every
    store, [address_claim_monitor] either returns [null], or throws, in both
    cases without writing anything, or it returns the retry pair having
    cleared [claim_in_progress] and nothing else.  It never returns a bus
    frame, never sets the flag, never touches [claiming_address],
    [our_device_name], the global or the node context. *)
Theorem monitor_outcomes (m : msg) (s : store) :
  (value_of (address_claim_monitor m s) = Normal return_null /\
   store_of (address_claim_monitor m s) = s /\
   assignments (effects_of (address_claim_monitor m s)) = []) \/
  (exists e, value_of (address_claim_monitor m s) = Throw e /\
             truthy (claim_in_progress (flow s)) = true /\
             store_of (address_claim_monitor m s) = s /\
             assignments (effects_of (address_claim_monitor m s)) = []) \/
  (value_of (address_claim_monitor m s)
     = Normal (return_array [retryMsg; resetTimerMsg]) /\
   truthy (claim_in_progress (flow s)) = true /\
   store_of (address_claim_monitor m s) = claim_cleared s /\
   assignments (effects_of (address_claim_monitor m s)) = [(Flow, "claim_in_progress")]).
Proof.
  unfold address_claim_monitor. script.
  destruct (truthy (claim_in_progress (flow s))) eqn:Hc; [| left; repeat split].
  destruct (msg_payload m) as [| | [f | t]]; script;
    try (right; left; eexists; repeat split; fail).
  destruct (dataPayload f) as [| | raw]; script;
    try (right; left; eexists; repeat split; fail).
  destruct (number_strict_eq _ _); [| left; repeat split].
  destruct (strict_eq _ _); [left; repeat split |].
  unfold BigInt_0x.
  destruct (hex_literal (ToString (our_device_name (flow s))) None); script;
    [| right; left; eexists; repeat split].
  destruct (hex_literal (toUpperCase raw) None); script;
    [| right; left; eexists; repeat split].
  destruct (_ <? _); [left | right; right]; repeat split.
Qed.

(** X8 : a competitor identity that is not hexadecimal.  With a claim in
    flight, a frame for the same address whose identity differs from ours
    and is not a hexadecimal literal makes the monitor throw a SyntaxError
    at the BigInt conversion, after its two conflict warnings; the stores
    are as before, so the claim stays in flight. *)
Theorem monitor_bad_identity_throws (s : store) (m : msg) (a : Z) (ours comp : string) :
  contending s a ours -> announces m a comp ->
  is_name ours = true -> comp <> ours ->
  hex_literal comp None = None ->
  address_claim_monitor m s =
    (Throw SyntaxError, s,
     [Warn ("Address " ++ Z_to_string a ++ " conflict detected!");
      Warn ("Our NAME: " ++ ours ++ ", Competitor NAME: " ++ comp)]).
Proof.
  intros (Hc & Ha & Hn) (f & raw & Hp & Hd & Hu & Hs) No Ne Hx.
  unfold address_claim_monitor. script.
  rewrite Hc, Ha, Hn, Hp. script. rewrite Hd. script. rewrite Hu, Hs.
  assert (E1 : number_strict_eq (Some a) (val a) = true) by apply Z.eqb_refl.
  assert (E2 : strict_eq (val comp) (val ours) = false)
    by (apply String.eqb_neq; exact Ne).
  rewrite E1, E2.
  unfold BigInt_0x. cbn [ToString prim_to_string Prim_string Prim_number].
  rewrite (hex_literal_name ours No), Hx. reflexivity.
Qed.

Lemma monitor_bad_identity_throws_witness :
  address_claim_monitor (frame_msg "DF" "70000000001122ZZ")
                        (claiming_store 223 "8000000000ABCDEF") =
    (Throw SyntaxError, claiming_store 223 "8000000000ABCDEF",
     [Warn ("Address " ++ Z_to_string 223 ++ " conflict detected!");
      Warn ("Our NAME: " ++ "8000000000ABCDEF" ++ ", Competitor NAME: "
            ++ "70000000001122ZZ")]).
Proof.
  refine (monitor_bad_identity_throws (claiming_store 223 "8000000000ABCDEF")
            (frame_msg "DF" "70000000001122ZZ") 223
            "8000000000ABCDEF" "70000000001122ZZ" _ _ _ _ _).
  - repeat split.
  - exists {| dataPayload := val "70000000001122ZZ"; sourceAddress := val "DF" |},
      "70000000001122ZZ". repeat split.
  - reflexivity.
  - discriminate.
  - reflexivity.
Defined.

(** ** Timer expiries *)

(** X9 : a timer message delivered twice.  [address_claim_success] never
    returns a message, and running it again on the same message changes
    nothing: if the first run committed, the flag is now unset; if it did
    not, the second run sees the store the first one saw. *)
Theorem success_timer_idempotent (m : msg) (s : store) :
  value_of (address_claim_success m s) = Normal return_null /\
  value_of (address_claim_success m (store_of (address_claim_success m s)))
    = Normal return_null /\
  store_of (address_claim_success m (store_of (address_claim_success m s)))
    = store_of (address_claim_success m s) /\
  assignments (effects_of (address_claim_success m (store_of (address_claim_success m s))))
    = [].
Proof.
  unfold address_claim_success. script.
  destruct (msg_claiming_address m) as [| | token]; script; try (repeat split; fail).
  destruct (truthy (claim_in_progress (flow s))) eqn:Hc; script;
    [| cbn [store_of fst snd]; rewrite ?Hc; repeat split].
  destruct (strict_eq (claiming_address (flow s)) (val token)) eqn:E; script;
    cbn [store_of fst snd]; rewrite ?Hc; script; rewrite ?E; repeat split.
Qed.

(** X10 : a commit is final.  Once either success script has committed an
    address, no sequence of claim frames and timer expiries changes any
    store or produces any message: the node neither defends nor gives up the
    committed address, even against a claim frame for that very address. *)
Theorem commit_is_final (m : msg) (s : store) (a : Z) (es : list event) :
  truthy (claim_in_progress (flow s)) = true ->
  claiming_address (flow s) = val a ->
  msg_claiming_address m = val a ->
  Forall automatic es ->
  (rvc_source_address (global (store_of (address_claim_success m s))) = val a /\
   run es (store_of (address_claim_success m s)) = store_of (address_claim_success m s) /\
   Forall (eq (Normal return_null)) (outputs es (store_of (address_claim_success m s)))) /\
  (rvc_source_address (global (store_of (store_claimed_address m s))) = val a /\
   run es (store_of (store_claimed_address m s)) = store_of (store_claimed_address m s) /\
   Forall (eq (Normal return_null)) (outputs es (store_of (store_claimed_address m s)))).
Proof.
  intros Hc Ha Ht Hes.
  destruct (store_claimed_address_run m s a Hc Ha) as (_ & S2 & _).
  assert (S1 : store_of (address_claim_success m s) = committed s a).
  { unfold address_claim_success. rewrite Ht. script. rewrite Hc.
    rewrite (proj2 (strict_eq_number _ _) Ha). reflexivity. }
  rewrite S1, S2. split; (split; [reflexivity | apply idle_run; [exact Hes | reflexivity]]).
Qed.

Lemma commit_is_final_witness :
  run [ClaimFrame (frame_msg "DF" "7000000000112233")]
      (store_of (address_claim_success (timer_msg 223)
                   (claiming_store 223 "8000000000ABCDEF")))
  = store_of (address_claim_success (timer_msg 223) (claiming_store 223 "8000000000ABCDEF")).
Proof.
  refine (proj1 (proj2 (proj1
    (commit_is_final (timer_msg 223) (claiming_store 223 "8000000000ABCDEF") 223
       [ClaimFrame (frame_msg "DF" "7000000000112233")] _ _ _ _)))).
  - reflexivity.
  - reflexivity.
  - reflexivity.
  - repeat constructor.
Defined.

(** ** The committed address stays in the pool *)

Lemma st_arb_step (e : event) (a : arbitration) :
  st (arb_step e a) = store_of (handle e (st a)).
Proof. unfold arb_step. destruct (broadcast_of _); reflexivity. Qed.

Lemma st_arb_run (es : list event) :
  forall a, st (arb_run es a) = run es (st a).
Proof.
  induction es as [| e es IH]; intros a; cbn [arb_run run]; [reflexivity |].
  now rewrite IH, st_arb_step.
Qed.

Lemma step_keeps_pool (a : arbitration) (e : event) :
  inv a ->
  address_ok (rvc_source_address (global (st a))) ->
  address_ok (rvc_source_address (global (store_of (handle e (st a))))).
Proof.
  intros I Hok. destruct e as [r m | m | m | m]; cbn [handle].
  - destruct (request_run r m (st a))
      as (s2 & name & c & _ & _ & A2 & _ & _ & _ & _ & _ & _ & effs & _ & R).
    rewrite R. destruct (c <? MIN_ADDRESS); cbn; rewrite A2; exact Hok.
  - destruct (monitor_cases m (st a)) as ([-> | [_ ->]] & _); exact Hok.
  - destruct (success_cases m (st a)) as ([[-> _] | (x & _ & Hx & _ & ->)] & _);
      [exact Hok |].
    cbn. apply (inv_range a I). apply (inv_last a I). exact Hx.
  - destruct (store_cases m (st a)) as ([[-> _] | (x & _ & Hx & ->)] & _);
      [exact Hok |].
    cbn. apply (inv_range a I). apply (inv_last a I). exact Hx.
Qed.

Lemma run_keeps_pool (es : list event) :
  forall a,
    reachable a -> Forall event_ok es ->
    address_ok (rvc_source_address (global (st a))) ->
    address_ok (rvc_source_address (global (run es (st a)))).
Proof.
  induction es as [| e es IH]; intros a Hr Hes Hok; cbn [run]; [exact Hok |].
  inversion Hes as [| ? ? He Hes']; subst.
  rewrite <- st_arb_step. apply IH.
  - apply reachable_step; assumption.
  - exact Hes'.
  - rewrite st_arb_step. apply step_keeps_pool; [apply inv_reachable; exact Hr | exact Hok].
Qed.

(** X11 : only pool addresses are committed.  Starting a process whose
    committed address is unset or within [208, 223], after any sequence of
    messages, frames and timer expiries the committed address is still
    unset or within [208, 223]. *)
Theorem committed_address_in_pool (es : list event) (s : store) :
  initial s ->
  address_ok (rvc_source_address (global s)) ->
  Forall event_ok es ->
  address_ok (rvc_source_address (global (run es s))).
Proof.
  intros Hi Hok Hes.
  apply (run_keeps_pool es {| st := s; last_broadcast := None; committed_in_cycle := false |});
    [apply reachable_init; exact Hi | exact Hes | exact Hok].
Qed.

Lemma committed_address_in_pool_witness :
  address_ok (rvc_source_address
                (global (run [Trigger 0xABCDE empty_msg; TimerFired (timer_msg 223)]
                             empty_store))).
Proof.
  refine (committed_address_in_pool
            [Trigger 0xABCDE empty_msg; TimerFired (timer_msg 223)] empty_store _ _ _).
  - exact initial_empty_store.
  - exact I.
  - repeat constructor; cbn; lia.
Defined.

(** * Instance de-duplication (unique_autofill.js) *)

Lemma includes_In (l : list string) (n : string) : includes l n = true <-> In n l.
Proof.
  unfold includes. rewrite existsb_exists. split.
  - intros (x & Hx & E). apply String.eqb_eq in E. now subst.
  - intros H. exists n. split; [exact H | apply String.eqb_refl].
Qed.

Lemma unique_autofill_cases (m : discovery_msg) (key : js (list string)) :
  (exists n, n <> "" /\ ~ In n (seen key) /\
             payload m = val {| instance := val n |} /\
             unique_autofill m key
               = (Normal (Some (status_msg n)), val (seen key ++ [n])%list)) \/
  (unique_autofill m key = (Normal None, key) /\
   forall n, payload m = val {| instance := val n |} -> n = "" \/ In n (seen key)) \/
  (unique_autofill m key = (Throw TypeError, key) /\
   forall p, payload m <> val p).
Proof.
  unfold unique_autofill, seen, status_msg.
  destruct (payload m) as [| | [[| | [| c r]]]];
    try (right; right; split; [reflexivity | discriminate]);
    try (right; left; split; [reflexivity |]; intros n E; try discriminate;
         injection E as <-; left; reflexivity).
  cbn [instance].
  set (l := match key with val l => l | _ => [] end).
  destruct (includes l (String c r)) eqn:E; cbn [negb].
  - right; left. split; [reflexivity |].
    intros n En. injection En as <-. right. apply includes_In. exact E.
  - left. exists (String c r). split; [discriminate |].
    split; [| split; reflexivity].
    intros Hin. apply includes_In in Hin. congruence.
Qed.

(** X12 : one step of de-duplication.  A status message with a non-empty
    instance name is passed on (as a fresh message holding only that name)
    exactly when the name is not yet recorded, and is then recorded at the
    end of the list; a recorded name yields [null] and leaves the key as it
    is.  Either way the name is recorded afterwards, and a list without
    duplicates stays without duplicates. *)
Theorem unique_autofill_step (m : discovery_msg) (key : js (list string)) (n : string) :
  payload m = val {| instance := val n |} ->
  n <> "" ->
  (In n (seen key) -> unique_autofill m key = (Normal None, key)) /\
  (~ In n (seen key) ->
     unique_autofill m key = (Normal (Some (status_msg n)), val (seen key ++ [n])%list)) /\
  In n (seen (snd (unique_autofill m key))) /\
  (NoDup (seen key) -> NoDup (seen (snd (unique_autofill m key)))).
Proof.
  intros Hp Hn.
  destruct (unique_autofill_cases m key)
    as [(n' & Hn' & Hnot & Hp' & R) | [(R & H) | (R & H)]].
  - rewrite Hp in Hp'. injection Hp' as <-. rewrite R. cbn [snd seen].
    split; [intros Hin; contradiction |]. split; [reflexivity |].
    split; [apply in_or_app; right; left; reflexivity |].
    intros Hd. apply NoDup_app; [exact Hd | repeat constructor; intros [] |].
    intros x Hx [<- | []]. contradiction.
  - destruct (H n Hp) as [E | Hin]; [contradiction |]. rewrite R. cbn [snd].
    split; [reflexivity |]. split; [intros Hnot; contradiction |]. auto.
  - exfalso. exact (H _ Hp).
Qed.

Lemma unique_autofill_step_witness :
  unique_autofill (status_msg "autofill") (val ["autofill"])
  = (Normal None, val ["autofill"]).
Proof.
  refine (proj1 (unique_autofill_step (status_msg "autofill") (val ["autofill"])
                   "autofill" _ _) _).
  - reflexivity.
  - discriminate.
  - left. reflexivity.
Defined.

Lemma unique_autofill_run_grows (ms : list discovery_msg) :
  forall key,
    seen (snd (unique_autofill_run ms key))
      = (seen key ++ emitted (fst (unique_autofill_run ms key)))%list.
Proof.
  induction ms as [| m ms IH]; intros key; cbn [unique_autofill_run].
  - cbn. now rewrite app_nil_r.
  - destruct (unique_autofill m key) as [c key1] eqn:R.
    specialize (IH key1).
    destruct (unique_autofill_run ms key1) as [cs key2]. cbn [fst snd] in *.
    rewrite IH.
    destruct (unique_autofill_cases m key)
      as [(n & _ & _ & _ & R') | [(R' & _) | (R' & _)]];
      rewrite R' in R; injection R as <- <-; cbn [emitted status_msg seen].
    + now rewrite <- app_assoc.
    + reflexivity.
    + reflexivity.
Qed.

Lemma unique_autofill_run_nodup (ms : list discovery_msg) :
  forall key,
    NoDup (seen key) -> NoDup (seen (snd (unique_autofill_run ms key))).
Proof.
  induction ms as [| m ms IH]; intros key Hd; cbn [unique_autofill_run]; [exact Hd |].
  destruct (unique_autofill m key) as [c key1] eqn:R.
  specialize (IH key1).
  destruct (unique_autofill_run ms key1) as [cs key2]. cbn [fst snd] in *.
  apply IH.
  destruct (unique_autofill_cases m key)
    as [(n & _ & Hnot & _ & R') | [(R' & _) | (R' & _)]];
    rewrite R' in R; injection R as <- <-; [| exact Hd | exact Hd].
  cbn [seen]. apply NoDup_app; [exact Hd | repeat constructor; intros [] |].
  intros x Hx [<- | []]. contradiction.
Qed.

(** X13 : every instance is announced once.  Over any sequence of status
    messages, starting from a list without duplicates: the recorded list
    grows by exactly the names passed on, in order; no name is passed on
    twice, and none that was recorded before; every non-empty name that
    arrived is recorded at the end. *)
Theorem unique_autofill_once (ms : list discovery_msg) (key : js (list string)) :
  NoDup (seen key) ->
  seen (snd (unique_autofill_run ms key))
    = (seen key ++ emitted (fst (unique_autofill_run ms key)))%list /\
  NoDup (emitted (fst (unique_autofill_run ms key))) /\
  (forall n, In n (emitted (fst (unique_autofill_run ms key))) -> ~ In n (seen key)) /\
  (forall m n, In m ms -> payload m = val {| instance := val n |} -> n <> "" ->
               In n (seen (snd (unique_autofill_run ms key)))).
Proof.
  intros Hd.
  pose proof (unique_autofill_run_grows ms key) as G.
  pose proof (unique_autofill_run_nodup ms key Hd) as N.
  rewrite G in N.
  split; [exact G |].
  split; [apply NoDup_app_remove_l in N; exact N |].
  split.
  - intros n Hn Hs. revert N Hn Hs. generalize (emitted (fst (unique_autofill_run ms key))).
    generalize (seen key). clear. intros l. induction l as [| x l IH]; intros e N Hn Hs.
    + destruct Hs.
    + cbn in N. inversion N as [| ? ? Hx Hl]; subst. destruct Hs as [<- | Hs].
      * apply Hx. apply in_or_app. right. exact Hn.
      * exact (IH e Hl Hn Hs).
  - clear G N Hd. revert key. induction ms as [| m0 ms IH]; intros key m n Hin Hp Hn.
    + destruct Hin.
    + cbn [unique_autofill_run].
      destruct (unique_autofill m0 key) as [c key1] eqn:R.
      pose proof (unique_autofill_run_grows ms key1) as G.
      specialize (IH key1).
      destruct (unique_autofill_run ms key1) as [cs key2]. cbn [fst snd] in *.
      destruct Hin as [<- | Hin]; [| exact (IH m n Hin Hp Hn)].
      rewrite G. apply in_or_app. left.
      destruct (unique_autofill_cases m0 key)
        as [(n' & _ & _ & Hp' & R') | [(R' & H) | (R' & H)]];
        rewrite R' in R; injection R as <- <-.
      * rewrite Hp in Hp'. injection Hp' as <-. cbn [seen].
        apply in_or_app. right. left. reflexivity.
      * destruct (H n Hp) as [E | Hs]; [contradiction | exact Hs].
      * exfalso. exact (H _ Hp).
Qed.

Lemma unique_autofill_once_witness :
  seen (snd (unique_autofill_run
               [status_msg "autofill"; status_msg "autofill"; status_msg "pump"] undefined))
  = (seen undefined
     ++ emitted (fst (unique_autofill_run
                        [status_msg "autofill"; status_msg "autofill"; status_msg "pump"]
                        undefined)))%list.
Proof.
  refine (proj1 (unique_autofill_once
                   [status_msg "autofill"; status_msg "autofill"; status_msg "pump"]
                   undefined _)).
  constructor.
Defined.

(** * The outgoing-message filter (filter_outgoing_can.js) *)

Lemma split_on_single (sep : ascii) (s : string) :
  has_char sep s = false -> split_on sep s = [s].
Proof.
  induction s as [| c r IH]; cbn [has_char split_on]; [reflexivity |].
  intros H. apply orb_false_iff in H. destruct H as [Hc Hr].
  rewrite Hc, (IH Hr). reflexivity.
Qed.

Lemma split_on_app (sep : ascii) (a b : string) :
  has_char sep a = false ->
  split_on sep (a ++ String sep b) = a :: split_on sep b.
Proof.
  induction a as [| c r IH]; cbn [has_char append split_on].
  - intros _. now rewrite Ascii.eqb_refl.
  - intros H. apply orb_false_iff in H. destruct H as [Hc Hr].
    rewrite Hc, (IH Hr). reflexivity.
Qed.

(** [n & 0xFF] is the low byte of [n]. *)
Lemma js_and_low_byte (n : Z) : js_and n 0xFF = n mod 256.
Proof.
  unfold js_and.
  assert (E : ToInt32 255 = 255) by reflexivity. rewrite E.
  change 255 with (Z.ones 8). rewrite Z.land_ones by lia.
  assert (M : ToInt32 n mod 2 ^ 8 = n mod 256).
  { unfold ToInt32. change (2 ^ 8) with 256. change (2 ^ 31) with 2147483648.
    change (2 ^ 32) with 4294967296.
    Z.to_euclidean_division_equations. lia. }
  rewrite M. unfold ToInt32.
  change (2 ^ 31) with 2147483648. change (2 ^ 32) with 4294967296.
  Z.to_euclidean_division_equations. lia.
Qed.

Lemma filter_run (m : msg) (s : store) :
  filter_outgoing_can m s =
    match msg_payload m with
    | val (Text (String c r)) =>
        match split_on "#" (String c r) with
        | [canId; _] =>
            match parseInt16 canId with
            | Some n =>
                if number_strict_eq (Some (n mod 256)) (rvc_source_address (global s))
                then (Normal (return_msg m), s, [])
                else (Normal return_null, s, [])
            | None => (Normal return_null, s, [])
            end
        | _ => (Normal return_null, s, [])
        end
    | _ => (Normal return_null, s, [])
    end.
Proof.
  unfold filter_outgoing_can.
  destruct (msg_payload m) as [| | [f | [| c r]]]; try reflexivity.
  destruct (split_on "#" (String c r)) as [| p1 [| p2 [| p3 l]]]; try reflexivity.
  cbn [List.length Nat.eqb negb nth].
  destruct (parseInt16 p1) as [n |]; [| reflexivity].
  script. rewrite js_and_low_byte.
  destruct (number_strict_eq _ _); reflexivity.
Qed.

(** X14 : the filter is passive.  For every message and store,
    [filter_outgoing_can] returns either [null] or the very message it was
    given; it writes nothing, logs nothing and never throws. *)
Theorem filter_passive (m : msg) (s : store) :
  (value_of (filter_outgoing_can m s) = Normal return_null \/
   value_of (filter_outgoing_can m s) = Normal (return_msg m)) /\
  store_of (filter_outgoing_can m s) = s /\
  effects_of (filter_outgoing_can m s) = [].
Proof.
  rewrite filter_run.
  destruct (msg_payload m) as [| | [f | [| c r]]]; auto.
  destruct (split_on "#" (String c r)) as [| p1 [| p2 [| p3 l]]]; auto.
  destruct (parseInt16 p1); auto.
  destruct (number_strict_eq _ _); auto.
Qed.

(** X15 : nothing passes before an address is committed.  While
    [rvc_source_address] is unset the filter blocks every message, whatever
    its identifier; a message that passes proves that the committed address
    is a byte value. *)
Theorem filter_needs_committed_address (m : msg) (s : store) :
  (rvc_source_address (global s) = undefined \/ rvc_source_address (global s) = null ->
   value_of (filter_outgoing_can m s) = Normal return_null) /\
  (value_of (filter_outgoing_can m s) <> Normal return_null ->
   exists a, rvc_source_address (global s) = val a /\ 0 <= a <= 255).
Proof.
  rewrite filter_run.
  destruct (msg_payload m) as [| | [f | [| c r]]]; try (split; [reflexivity | cbn; congruence]).
  destruct (split_on "#" (String c r)) as [| p1 [| p2 [| p3 l]]];
    try (split; [reflexivity | cbn; congruence]).
  destruct (parseInt16 p1) as [n |]; [| split; [reflexivity | cbn; congruence]].
  destruct (rvc_source_address (global s)) as [| | a];
    try (split; [reflexivity | cbn; congruence]).
  cbn [number_strict_eq]. split; [intros [H | H]; discriminate |].
  destruct (n mod 256 =? a) eqn:E; [| cbn; congruence].
  intros _. exists a. split; [reflexivity |].
  apply Z.eqb_eq in E. pose proof (Z.mod_pos_bound n 256). lia.
Qed.

Lemma filter_needs_committed_address_witness :
  value_of (filter_outgoing_can (raw_msg "19FFB0FE#FDFFFFFFFFFFFFFF") empty_store)
  = Normal return_null.
Proof.
  refine (proj1 (filter_needs_committed_address
                   (raw_msg "19FFB0FE#FDFFFFFFFFFFFFFF") empty_store) _).
  left. reflexivity.
Defined.

(** * The command encoders *)

Lemma encode_autofill_run (m : command_msg) (s : store) :
  encode_autofill_command m s =
    let frame (data : string) :=
      (Normal (Some {| cmd_topic := val "can/send";
                       cmd_payload :=
                         val (toUpperCase (can_id_hex 6 "1FFB0" (source_address_of s))
                              ++ "#" ++ data);
                       command := command m |}), s, []) in
    if strict_eq (command m) (val "ON") then frame "FDFFFFFFFFFFFFFF"
    else if strict_eq (command m) (val "OFF") then frame "FCFFFFFFFFFFFFFF"
    else (Normal None, s,
          [Warn ("[encode_autofill_command] Invalid command: " ++ String "034" ""
                 ++ ToString (command m) ++ String "034" "" ++ ".")]).
Proof.
  unfold encode_autofill_command, SOURCE_ADDRESS, source_address_of. script.
  destruct (strict_eq (command m) (val "ON")); [reflexivity |].
  destruct (strict_eq (command m) (val "OFF")); reflexivity.
Qed.

Lemma encode_water_pump_run (m : command_msg) (s : store) :
  encode_water_pump_command m s =
    let frame (data : string) :=
      let text := toUpperCase (can_id_hex 6 "1FFB2" (source_address_of s)) ++ "#" ++ data in
      (Normal (Some {| cmd_topic := val "can/send"; cmd_payload := val text;
                       command := command m |}), s,
       [Warn ("[encode_pump_command] State: " ++ ToString (command m)
              ++ " | CAN: " ++ text)]) in
    if strict_eq (command m) (val "ON") then frame "01FFFFFFFFFFFFFF"
    else if strict_eq (command m) (val "OFF") then frame "00FFFFFFFFFFFFFF"
    else (Normal None, s,
          [Warn ("[encode_pump_command] Invalid command: " ++ String "034" ""
                 ++ ToString (command m) ++ String "034" "" ++ ". Expected "
                 ++ String "034" "" ++ "ON" ++ String "034" "" ++ " or "
                 ++ String "034" "" ++ "OFF" ++ String "034" "" ++ ".")]).
Proof.
  unfold encode_water_pump_command, SOURCE_ADDRESS, source_address_of. script.
  destruct (strict_eq (command m) (val "ON")); [reflexivity |].
  destruct (strict_eq (command m) (val "OFF")); reflexivity.
Qed.

Lemma source_address_cases (s : store) :
  address_ok (rvc_source_address (global s)) ->
  (source_address_of s = 254 /\
   (rvc_source_address (global s) = undefined \/ rvc_source_address (global s) = null)) \/
  (MIN_ADDRESS <= source_address_of s <= STARTING_ADDRESS /\
   rvc_source_address (global s) = val (source_address_of s)).
Proof.
  unfold source_address_of, address_ok.
  destruct (rvc_source_address (global s)) as [| | a]; auto.
  intros H. right. unfold MIN_ADDRESS, STARTING_ADDRESS in H.
  destruct (a =? 0) eqn:E; [apply Z.eqb_eq in E; lia |]. auto.
Qed.

Lemma frame_ok_pool (dgn : string) (base sa : Z) (data : string) :
  frame_ok dgn base 254 data = true ->
  forallb (fun a => frame_ok dgn base a data)
          [208; 209; 210; 211; 212; 213; 214; 215; 216; 217; 218; 219; 220; 221; 222; 223]
    = true ->
  sa = 254 \/ MIN_ADDRESS <= sa <= STARTING_ADDRESS ->
  frame_ok dgn base sa data = true.
Proof.
  intros H254 Hpool [-> | H]; [exact H254 |].
  rewrite forallb_forall in Hpool. apply Hpool.
  pose proof (address_cases sa H) as C. cbn [In].
  repeat (destruct C as [C | C]; [subst sa; tauto |]). subst sa. tauto.
Qed.

Lemma frame_ok_spec (dgn : string) (base sa : Z) (data : string) :
  frame_ok dgn base sa data = true ->
  exists c r,
    toUpperCase (can_id_hex 6 dgn sa) = String c r /\
    String.length (String c r) = 8%nat /\
    split_on "#" (String c r ++ "#" ++ data) = [String c r; data] /\
    parseInt16 (String c r) = Some (base + sa) /\
    (base + sa) mod 256 = sa.
Proof.
  unfold frame_ok. set (id := toUpperCase (can_id_hex 6 dgn sa)).
  destruct (split_on "#" (id ++ "#" ++ data)) as [| p1 [| p2 [| p3 l]]] eqn:S;
    try discriminate.
  intros H. apply andb_true_iff in H. destruct H as [H Hp].
  apply andb_true_iff in H. destruct H as [E1 E2].
  apply String.eqb_eq in E1. apply String.eqb_eq in E2. subst p1 p2.
  destruct (parseInt16 id) as [n |] eqn:P; [| discriminate].
  apply andb_true_iff in Hp. destruct Hp as [Hp L].
  apply andb_true_iff in Hp. destruct Hp as [N M].
  apply Z.eqb_eq in N. apply Z.eqb_eq in M. apply Nat.eqb_eq in L. subst n.
  destruct id as [| c r]; [discriminate |].
  exists c, r. auto.
Qed.

Lemma strict_eq_string (v : js string) (t : string) :
  strict_eq v (val t) = true <-> v = val t.
Proof.
  destruct v as [| | x]; cbn; split; try discriminate.
  - intros E. apply String.eqb_eq in E. now subst.
  - intros E. injection E as ->. apply String.eqb_refl.
Qed.

Lemma filter_frame (m : msg) (s : store) (dgn : string) (base sa : Z) (data : string) :
  frame_ok dgn base sa data = true ->
  msg_payload m = val (Text (toUpperCase (can_id_hex 6 dgn sa) ++ "#" ++ data)) ->
  filter_outgoing_can m s =
    if number_strict_eq (Some sa) (rvc_source_address (global s))
    then (Normal (return_msg m), s, [])
    else (Normal return_null, s, []).
Proof.
  intros F Hp.
  destruct (frame_ok_spec dgn base sa data F) as (c & r & Eid & _ & S & P & M).
  rewrite filter_run, Hp, Eid.
  change (String c r ++ "#" ++ data) with (String c (r ++ "#" ++ data)).
  cbv beta iota.
  change (String c (r ++ "#" ++ data)) with (String c r ++ "#" ++ data).
  rewrite S, P, M. reflexivity.
Qed.

(** X16 : the autofill command frame.  With the committed address unset or
    in the pool, [encode_autofill_command] never writes a store.  For the
    command ON (OFF) it returns a [can/send] message whose text is an
    eight-digit identifier of value 0x19FFB000 plus the source address, a
    [#], and sixteen digits that the decoders' byte loop reads back as FD
    (FC) followed by seven FF; the source address is the committed address,
    or 254 while none is committed.  Any other command yields [null] and one
    warning. *)
Theorem encode_autofill_frame (m : command_msg) (s : store) :
  address_ok (rvc_source_address (global s)) ->
  store_of (encode_autofill_command m s) = s /\
  (forall a, rvc_source_address (global s) = val a -> source_address_of s = a) /\
  (rvc_source_address (global s) = undefined \/ rvc_source_address (global s) = null ->
   source_address_of s = 254) /\
  (forall v,
     (command m = val "ON" /\ v = 0xFD) \/ (command m = val "OFF" /\ v = 0xFC) ->
     exists id data,
       value_of (encode_autofill_command m s)
         = Normal (Some {| cmd_topic := val "can/send";
                           cmd_payload := val (id ++ "#" ++ data);
                           command := command m |}) /\
       String.length id = 8%nat /\
       parseInt16 id = Some (0x19FFB000 + source_address_of s) /\
       hex_to_bytes data = map Some (command_bytes v)) /\
  (command m <> val "ON" -> command m <> val "OFF" ->
   value_of (encode_autofill_command m s) = Normal None /\
   exists text, effects_of (encode_autofill_command m s) = [Warn text]).
Proof.
  intros Hok. rewrite encode_autofill_run. cbv zeta.
  pose proof (source_address_cases s Hok) as C.
  assert (F : forall data, data = "FDFFFFFFFFFFFFFF" \/ data = "FCFFFFFFFFFFFFFF" ->
                frame_ok "1FFB0" 0x19FFB000 (source_address_of s) data = true).
  { intros data D. apply frame_ok_pool.
    - destruct D as [-> | ->]; vm_compute; reflexivity.
    - destruct D as [-> | ->]; vm_compute; reflexivity.
    - destruct C as [[E _] | [R _]]; auto. }
  split; [| split; [| split; [| split]]].
  - destruct (strict_eq (command m) (val "ON")); [reflexivity |].
    destruct (strict_eq (command m) (val "OFF")); reflexivity.
  - intros a Ha. destruct C as [[_ [E | E]] | [_ E]]; congruence.
  - intros [E | E]; destruct C as [[E' _] | [_ E']]; congruence.
  - intros v [[Hc ->] | [Hc ->]].
    + rewrite (proj2 (strict_eq_string _ _) Hc).
      destruct (frame_ok_spec _ _ _ _ (F "FDFFFFFFFFFFFFFF" (or_introl eq_refl)))
        as (c & r & Eid & L & _ & P & _).
      rewrite Eid. exists (String c r), "FDFFFFFFFFFFFFFF". repeat split; assumption.
    + assert (N : strict_eq (command m) (val "ON") = false) by (rewrite Hc; reflexivity).
      rewrite N, (proj2 (strict_eq_string _ _) Hc).
      destruct (frame_ok_spec _ _ _ _ (F "FCFFFFFFFFFFFFFF" (or_intror eq_refl)))
        as (c & r & Eid & L & _ & P & _).
      rewrite Eid. exists (String c r), "FCFFFFFFFFFFFFFF". repeat split; assumption.
  - intros N1 N2.
    destruct (strict_eq (command m) (val "ON")) eqn:E1;
      [apply strict_eq_string in E1; contradiction |].
    destruct (strict_eq (command m) (val "OFF")) eqn:E2;
      [apply strict_eq_string in E2; contradiction |].
    split; [reflexivity | eexists; reflexivity].
Qed.

Lemma encode_autofill_frame_witness :
  exists id data,
    value_of (encode_autofill_command on_msg (committed_store 223))
      = Normal (Some {| cmd_topic := val "can/send";
                        cmd_payload := val (id ++ "#" ++ data);
                        command := command on_msg |}) /\
    String.length id = 8%nat /\
    parseInt16 id = Some (0x19FFB000 + source_address_of (committed_store 223)) /\
    hex_to_bytes data = map Some (command_bytes 0xFD).
Proof.
  refine (proj1 (proj2 (proj2 (proj2
    (encode_autofill_frame on_msg (committed_store 223) _)))) 0xFD _).
  - cbn. unfold MIN_ADDRESS, STARTING_ADDRESS. lia.
  - left. split; reflexivity.
Defined.

Lemma encoded_text (V : completion (option command_msg)) (out : command_msg) (t : js string) :
  V = Normal (Some out) ->
  match V with Normal (Some o) => cmd_payload o | _ => undefined end = t ->
  cmd_payload out = t.
Proof. intros ->. auto. Qed.

Lemma encode_autofill_text (m out : command_msg) (s : store) :
  value_of (encode_autofill_command m s) = Normal (Some out) ->
  exists data,
    (data = "FDFFFFFFFFFFFFFF" \/ data = "FCFFFFFFFFFFFFFF") /\
    cmd_payload out
      = val (toUpperCase (can_id_hex 6 "1FFB0" (source_address_of s)) ++ "#" ++ data).
Proof.
  intros V. rewrite encode_autofill_run in V. cbv zeta in V.
  destruct (strict_eq (command m) (val "ON"));
    [| destruct (strict_eq (command m) (val "OFF")); [| discriminate]];
    eexists; (split; [| apply (encoded_text _ _ _ V); reflexivity]); auto.
Qed.

Lemma encode_water_pump_text (m out : command_msg) (s : store) :
  value_of (encode_water_pump_command m s) = Normal (Some out) ->
  exists data,
    (data = "01FFFFFFFFFFFFFF" \/ data = "00FFFFFFFFFFFFFF") /\
    cmd_payload out
      = val (toUpperCase (can_id_hex 6 "1FFB2" (source_address_of s)) ++ "#" ++ data).
Proof.
  intros V. rewrite encode_water_pump_run in V. cbv zeta in V.
  destruct (strict_eq (command m) (val "ON"));
    [| destruct (strict_eq (command m) (val "OFF")); [| discriminate]];
    eexists; (split; [| apply (encoded_text _ _ _ V); reflexivity]); auto.
Qed.

(** X17 : encoded commands and the filter.  Whatever message either encoder
    returns, a bus message carrying the same text passes
    [filter_outgoing_can] exactly when an address is committed: commands
    sent from the fallback address 254 before any commit are blocked. *)
Theorem encoded_command_passes_filter
    (m out : command_msg) (s : store) (text : string) (echo : msg) :
  address_ok (rvc_source_address (global s)) ->
  value_of (encode_autofill_command m s) = Normal (Some out) \/
  value_of (encode_water_pump_command m s) = Normal (Some out) ->
  cmd_payload out = val text ->
  msg_payload echo = val (Text text) ->
  value_of (filter_outgoing_can echo s) =
    match rvc_source_address (global s) with
    | val _ => Normal (return_msg echo)
    | _ => Normal return_null
    end.
Proof.
  intros Hok Henc Ht He.
  pose proof (source_address_cases s Hok) as C.
  assert (Hsa : source_address_of s = 254 \/
                MIN_ADDRESS <= source_address_of s <= STARTING_ADDRESS)
    by (destruct C as [[E _] | [R _]]; auto).
  assert (F : exists dgn base data,
             frame_ok dgn base (source_address_of s) data = true /\
             val text
               = val (toUpperCase (can_id_hex 6 dgn (source_address_of s)) ++ "#" ++ data)).
  { destruct Henc as [V | V].
    - destruct (encode_autofill_text m out s V) as (data & D & T).
      exists "1FFB0", 0x19FFB000, data. split; [| congruence].
      apply frame_ok_pool; [| | exact Hsa];
        destruct D as [-> | ->]; vm_compute; reflexivity.
    - destruct (encode_water_pump_text m out s V) as (data & D & T).
      exists "1FFB2", 0x19FFB200, data. split; [| congruence].
      apply frame_ok_pool; [| | exact Hsa];
        destruct D as [-> | ->]; vm_compute; reflexivity. }
  destruct F as (dgn & base & data & F & T).
  assert (He' : msg_payload echo
                = val (Text (toUpperCase (can_id_hex 6 dgn (source_address_of s))
                             ++ "#" ++ data))).
  { rewrite He. apply (f_equal (fun v => match v with val t => val (Text t) | _ => undefined end)) in T.
    exact T. }
  rewrite (filter_frame echo s dgn base _ data F He').
  destruct C as [[E [R | R]] | [_ R]]; rewrite R.
  - reflexivity.
  - reflexivity.
  - cbn [number_strict_eq]. rewrite Z.eqb_refl. reflexivity.
Qed.

Lemma encoded_command_passes_filter_witness :
  value_of (filter_outgoing_can (raw_msg "19FFB0DF#FDFFFFFFFFFFFFFF") (committed_store 223)) =
    match rvc_source_address (global (committed_store 223)) with
    | val _ => Normal (return_msg (raw_msg "19FFB0DF#FDFFFFFFFFFFFFFF"))
    | _ => Normal return_null
    end.
Proof.
  refine (encoded_command_passes_filter on_msg
            {| cmd_topic := val "can/send";
               cmd_payload := val "19FFB0DF#FDFFFFFFFFFFFFFF";
               command := val "ON" |}
            (committed_store 223) "19FFB0DF#FDFFFFFFFFFFFFFF"
            (raw_msg "19FFB0DF#FDFFFFFFFFFFFFFF") _ _ _ _).
  - cbn. unfold MIN_ADDRESS, STARTING_ADDRESS. lia.
  - left. vm_compute. reflexivity.
  - reflexivity.
  - reflexivity.
Defined.

Lemma claim_id_ok_pool (a : Z) :
  MIN_ADDRESS <= a <= STARTING_ADDRESS -> claim_id_ok a = true.
Proof.
  intros H. pose proof (address_cases a H) as C.
  repeat (destruct C as [C | C]; [subst a; vm_compute; reflexivity |]).
  subst a; vm_compute; reflexivity.
Qed.

(** X18 : claim frames and the filter.  A bus message carrying the claim
    frame for a pool address [a] (identifier, [#], an identity without
    [#]) passes the filter exactly when [a] is the committed address: the
    echo of the node's own claim passes after its commit, claims for other
    addresses never do. *)
Theorem claim_frame_through_filter (a b : Z) (name : string) (echo : msg) (s : store) :
  MIN_ADDRESS <= a <= STARTING_ADDRESS ->
  has_char "#" name = false ->
  msg_payload echo = val (Text (claim_can_id a ++ "#" ++ name)) ->
  rvc_source_address (global s) = val b ->
  value_of (filter_outgoing_can echo s) =
    if a =? b then Normal (return_msg echo) else Normal return_null.
Proof.
  intros Ha Hn Hp Hb.
  pose proof (claim_id_ok_pool a Ha) as K. unfold claim_id_ok in K.
  destruct (claim_can_id a) as [| c r] eqn:Eid; [discriminate |].
  apply andb_true_iff in K. destruct K as [Hh Hparse].
  apply negb_true_iff in Hh.
  destruct (parseInt16 (String c r)) as [n |] eqn:P; [| discriminate].
  apply Z.eqb_eq in Hparse.
  rewrite filter_run, Hp.
  change (String c r ++ "#" ++ name) with (String c (r ++ "#" ++ name)).
  cbv beta iota.
  change (String c (r ++ "#" ++ name)) with (String c r ++ String "#" name).
  rewrite (split_on_app "#" (String c r) name Hh), (split_on_single "#" name Hn).
  rewrite P, Hparse, Hb. cbn [number_strict_eq].
  destruct (a =? b); reflexivity.
Qed.

Lemma claim_frame_through_filter_witness :
  value_of (filter_outgoing_can (raw_msg (claim_can_id 223 ++ "#" ++ "8000000000ABCDEF"))
                                (committed_store 223)) =
    if 223 =? 223
    then Normal (return_msg (raw_msg (claim_can_id 223 ++ "#" ++ "8000000000ABCDEF")))
    else Normal return_null.
Proof.
  refine (claim_frame_through_filter 223 223 "8000000000ABCDEF"
            (raw_msg (claim_can_id 223 ++ "#" ++ "8000000000ABCDEF"))
            (committed_store 223) _ _ _ _).
  - unfold MIN_ADDRESS, STARTING_ADDRESS. lia.
  - reflexivity.
  - reflexivity.
  - reflexivity.
Defined.

(** * Payload bytes: printing and reading back *)

Lemma range_forallb (f : Z -> bool) (n : nat) :
  forallb f (map Z.of_nat (seq 0 n)) = true ->
  forall z, 0 <= z < Z.of_nat n -> f z = true.
Proof.
  intros H z Hz. rewrite forallb_forall in H. apply H.
  rewrite <- (Z2Nat.id z) by lia. apply in_map. apply in_seq. lia.
Qed.

Lemma byte_text (b : Z) :
  0 <= b <= 255 ->
  exists c1 c2,
    toUpperCase (padStart (toString16 b) 2 "0") = String c1 (String c2 "") /\
    parseInt16 (String c1 (String c2 "")) = Some b.
Proof.
  intros Hb.
  assert (K : byte_text_ok b = true).
  { apply (range_forallb byte_text_ok 256); [vm_compute; reflexivity | lia]. }
  unfold byte_text_ok in K.
  destruct (toUpperCase (padStart (toString16 b) 2 "0")) as [| c1 [| c2 [| c3 r]]];
    try discriminate.
  destruct (parseInt16 (String c1 (String c2 ""))) as [n |] eqn:P; [| discriminate].
  apply Z.eqb_eq in K. subst n. exists c1, c2. split; [reflexivity | exact P].
Qed.

Lemma append_empty (s : string) : s ++ "" = s.
Proof. induction s as [| c r IH]; cbn; [reflexivity | now rewrite IH]. Qed.

Lemma data_hex_cons (b : Z) (bs : list Z) :
  data_hex (b :: bs) = padStart (toString16 b) 2 "0" ++ data_hex bs.
Proof.
  unfold data_hex. cbn [map String.concat].
  destruct (map _ bs); [now rewrite append_empty | reflexivity].
Qed.

(** X19 : payload bytes round trip.  Bytes printed the way the encoders
    print a payload (two hexadecimal digits each, joined, upper-cased) are
    read back unchanged by the byte loop of the status decoders. *)
Theorem payload_bytes_round_trip (dataBytes : list Z) :
  Forall (fun b => 0 <= b <= 255) dataBytes ->
  hex_to_bytes (toUpperCase (data_hex dataBytes)) = map Some dataBytes.
Proof.
  induction 1 as [| b bs Hb _ IH]; [reflexivity |].
  rewrite data_hex_cons, toUpperCase_app.
  destruct (byte_text b Hb) as (c1 & c2 & -> & P).
  cbn [append hex_to_bytes map]. rewrite P, IH. reflexivity.
Qed.

Lemma payload_bytes_round_trip_witness :
  hex_to_bytes (toUpperCase (data_hex [3; 255; 200; 5; 255; 0; 255; 255]))
  = map Some [3; 255; 200; 5; 255; 0; 255; 255].
Proof.
  refine (payload_bytes_round_trip [3; 255; 200; 5; 255; 0; 255; 255] _).
  repeat constructor; lia.
Defined.

(** * Bit fields (decodeBits) *)

(** X20 : [decodeBits].  For a byte and a field [startBit..endBit] inside
    it, [decodeBits] returns the field's value: the byte shifted right by
    [startBit], reduced modulo 2^(width); the result is below 2^(width). *)
Theorem decodeBits_field (byte startBit endBit : Z) :
  0 <= byte <= 255 ->
  0 <= startBit <= endBit -> endBit <= 7 ->
  decodeBits byte startBit endBit = (byte / 2 ^ startBit) mod 2 ^ (endBit - startBit + 1) /\
  0 <= decodeBits byte startBit endBit < 2 ^ (endBit - startBit + 1).
Proof.
  intros Hb Hs He.
  assert (K : decodeBits_ok byte startBit endBit = true).
  { apply (range_forallb (fun e => decodeBits_ok byte startBit e) 8); [| lia].
    apply (range_forallb
             (fun s => forallb (fun e => decodeBits_ok byte s e) (map Z.of_nat (seq 0 8))) 8);
      [| lia].
    apply (range_forallb
             (fun b => forallb
                         (fun s => forallb (fun e => decodeBits_ok b s e)
                                           (map Z.of_nat (seq 0 8)))
                         (map Z.of_nat (seq 0 8))) 256); [vm_compute; reflexivity | lia]. }
  unfold decodeBits_ok in K.
  destruct (startBit <=? endBit) eqn:L; [| apply Z.leb_gt in L; lia].
  apply Z.eqb_eq in K. rewrite K. split; [reflexivity |].
  apply Z.mod_pos_bound. apply Z.pow_pos_nonneg; lia.
Qed.

Lemma decodeBits_field_witness :
  decodeBits 0xB6 2 5 = (0xB6 / 2 ^ 2) mod 2 ^ (5 - 2 + 1).
Proof.
  refine (proj1 (decodeBits_field 0xB6 2 5 _ _ _)); lia.
Defined.

(** * The 32-bit current field *)

Lemma ToInt32_mod (x : Z) : ToInt32 x mod 2 ^ 32 = x mod 2 ^ 32.
Proof.
  unfold ToInt32. change (2 ^ 31) with 2147483648. change (2 ^ 32) with 4294967296.
  Z.to_euclidean_division_equations. lia.
Qed.

Lemma ToInt32_congr (x y : Z) : x mod 2 ^ 32 = y mod 2 ^ 32 -> ToInt32 x = ToInt32 y.
Proof.
  intros E. unfold ToInt32.
  rewrite <- (Zplus_mod_idemp_l x), <- (Zplus_mod_idemp_l y), E. reflexivity.
Qed.

Lemma ToInt32_range (x : Z) : - 2 ^ 31 <= ToInt32 x < 2 ^ 31.
Proof.
  unfold ToInt32. change (2 ^ 31) with 2147483648. change (2 ^ 32) with 4294967296.
  pose proof (Z.mod_pos_bound (x + 2147483648) 4294967296). lia.
Qed.

Lemma lor_mod (a b : Z) : Z.lor a b mod 2 ^ 32 = Z.lor (a mod 2 ^ 32) (b mod 2 ^ 32).
Proof.
  rewrite <- !Z.land_ones by lia. apply Z.land_lor_distr_l.
Qed.

Lemma js_or_mod (a b : Z) :
  js_or a b mod 2 ^ 32 = Z.lor (a mod 2 ^ 32) (b mod 2 ^ 32).
Proof.
  unfold js_or. now rewrite ToInt32_mod, lor_mod, !ToInt32_mod.
Qed.

Lemma lor_disjoint (h l n : Z) :
  0 <= n -> 0 <= l < 2 ^ n -> Z.lor (h * 2 ^ n) l = h * 2 ^ n + l.
Proof.
  intros Hn Hl.
  assert (Z0 : Z.land (h * 2 ^ n) l = 0).
  { rewrite <- (Z.mod_small l (2 ^ n)) by lia.
    rewrite <- Z.land_ones by lia.
    rewrite (Z.land_comm l), Z.land_assoc, Z.land_ones by lia.
    rewrite Z.mod_mul by lia. apply Z.land_0_l. }
  pose proof (Z.add_lor_land (h * 2 ^ n) l) as A. rewrite Z0 in A. lia.
Qed.

Lemma js_shl_byte (d k : Z) :
  0 <= d <= 255 -> 0 <= k < 32 -> js_shl d k mod 2 ^ 32 = (d * 2 ^ k) mod 2 ^ 32.
Proof.
  intros Hd Hk. unfold js_shl. rewrite ToInt32_mod.
  rewrite (Z.mod_small k 32) by lia.
  assert (E : ToInt32 d = d).
  { unfold ToInt32. change (2 ^ 31) with 2147483648. change (2 ^ 32) with 4294967296.
    rewrite Z.mod_small by lia. lia. }
  rewrite E, Z.shiftl_mul_pow2 by lia. reflexivity.
Qed.

Lemma dc_current_word (d4 d5 d6 d7 : Z) :
  0 <= d4 <= 255 -> 0 <= d5 <= 255 -> 0 <= d6 <= 255 -> 0 <= d7 <= 255 ->
  js_or (js_or (js_or (js_shl d7 24) (js_shl d6 16)) (js_shl d5 8)) d4
    = ToInt32 (d4 + 256 * d5 + 65536 * d6 + 16777216 * d7).
Proof.
  intros H4 H5 H6 H7.
  unfold js_or at 1. apply ToInt32_congr.
  rewrite lor_mod, !ToInt32_mod, !js_or_mod, !js_shl_byte by lia.
  change (2 ^ 24) with 16777216. change (2 ^ 16) with 65536. change (2 ^ 8) with 256.
  change (2 ^ 32) with 4294967296.
  rewrite !Z.mod_small by lia.
  replace (d7 * 16777216) with (d7 * 2 ^ 24) by (change (2 ^ 24) with 16777216; lia).
  rewrite (lor_disjoint d7 (d6 * 65536) 24) by (change (2 ^ 24) with 16777216; lia).
  replace (d7 * 2 ^ 24 + d6 * 65536) with ((d7 * 256 + d6) * 2 ^ 16)
    by (change (2 ^ 24) with 16777216; change (2 ^ 16) with 65536; lia).
  rewrite (lor_disjoint _ (d5 * 256) 16) by (change (2 ^ 16) with 65536; lia).
  replace ((d7 * 256 + d6) * 2 ^ 16 + d5 * 256) with ((d7 * 65536 + d6 * 256 + d5) * 2 ^ 8)
    by (change (2 ^ 16) with 65536; change (2 ^ 8) with 256; lia).
  rewrite (lor_disjoint _ d4 8) by (change (2 ^ 8) with 256; lia).
  change (2 ^ 8) with 256. lia.
Qed.

(** X21 : the current sentinel is never seen.  For every four payload bytes,
    [decodeDCSourceStatus1] hands [decodeDCCurrent32bit] the bytes read as a
    signed little-endian 32-bit integer; that value is never 4294967295, so
    the "Not Available" answer is never given and an all-FF field decodes as
    -1 step (-0.05 A). *)
Theorem dc_current_never_not_available (d4 d5 d6 d7 : Z) :
  0 <= d4 <= 255 -> 0 <= d5 <= 255 -> 0 <= d6 <= 255 -> 0 <= d7 <= 255 ->
  dc_current_A d4 d5 d6 d7
    = Steps_0_05A (ToInt32 (d4 + 256 * d5 + 65536 * d6 + 16777216 * d7)) /\
  dc_current_A d4 d5 d6 d7 <> NotAvailable /\
  dc_current_A 255 255 255 255 = Steps_0_05A (-1).
Proof.
  intros H4 H5 H6 H7.
  assert (E : dc_current_A d4 d5 d6 d7
              = Steps_0_05A (ToInt32 (d4 + 256 * d5 + 65536 * d6 + 16777216 * d7))).
  { unfold dc_current_A. rewrite dc_current_word by assumption.
    set (v := ToInt32 _). pose proof (ToInt32_range (d4 + 256 * d5 + 65536 * d6 + 16777216 * d7)) as R.
    fold v in R. change (2 ^ 31) with 2147483648 in R.
    unfold decodeDCCurrent32bit.
    destruct (v =? 4294967295) eqn:E1; [apply Z.eqb_eq in E1; lia |].
    destruct (v >? 2147483647) eqn:E2; [apply Z.gtb_lt in E2; lia | reflexivity]. }
  split; [exact E |]. split; [rewrite E; discriminate | reflexivity].
Qed.

Lemma dc_current_never_not_available_witness :
  dc_current_A 0x10 0x27 0 0 = Steps_0_05A (ToInt32 (0x10 + 256 * 0x27 + 65536 * 0 + 16777216 * 0)).
Proof.
  refine (proj1 (dc_current_never_not_available 0x10 0x27 0 0 _ _ _ _)); lia.
Defined.

(** * The frame of the second success script *)

Lemma store_id_ok_pool (a : Z) :
  MIN_ADDRESS <= a <= STARTING_ADDRESS -> store_id_ok a = true.
Proof.
  intros H. pose proof (address_cases a H) as C.
  repeat (destruct C as [C | C]; [subst a; vm_compute; reflexivity |]).
  subst a; vm_compute; reflexivity.
Qed.

(** X22 : the second success script does not send an ADDRESS_CLAIMED frame.
    For a live claim of a pool address [a], the identifier of the message
    [store_claimed_address] returns has source address [a] and priority 6,
    but its DGN field (bits 8 to 25) is 0x3B800, where the claim frame of the
    request node has 0xEE00: the high byte EE is shifted by 18 bits instead
    of 16. *)
Theorem store_frame_not_address_claimed (m : msg) (s : store) (a : Z) :
  truthy (claim_in_progress (flow s)) = true ->
  claiming_address (flow s) = val a ->
  MIN_ADDRESS <= a <= STARTING_ADDRESS ->
  exists out n n',
    value_of (store_claimed_address m s) = Normal (return_msg out) /\
    msg_payload out = val (Text (store_can_id a ++ "#" ++ addressClaimData)) /\
    parseInt16 (store_can_id a) = Some n /\
    n mod 256 = a /\ n / 2 ^ 26 = 6 /\ (n / 256) mod 2 ^ 18 = 0x3B800 /\
    parseInt16 (claim_can_id a) = Some n' /\
    n' mod 256 = a /\ n' / 2 ^ 26 = 6 /\ (n' / 256) mod 2 ^ 18 = 0xEE00.
Proof.
  intros Hc Ha Hp.
  destruct (store_claimed_address_run m s a Hc Ha) as (V & _ & _).
  pose proof (store_id_ok_pool a Hp) as K. unfold store_id_ok in K.
  destruct (parseInt16 (store_can_id a)) as [n |]; [| discriminate].
  destruct (parseInt16 (claim_can_id a)) as [n' |]; [| discriminate].
  repeat (apply andb_true_iff in K; destruct K as [K ?]).
  repeat match goal with H : (_ =? _) = true |- _ => apply Z.eqb_eq in H end.
  eexists; exists n, n'. split; [exact V |]. repeat split; assumption.
Qed.

Lemma store_frame_not_address_claimed_witness :
  exists out n n',
    value_of (store_claimed_address (timer_msg 223) (claiming_store 223 "8000000000ABCDEF"))
      = Normal (return_msg out) /\
    msg_payload out = val (Text (store_can_id 223 ++ "#" ++ addressClaimData)) /\
    parseInt16 (store_can_id 223) = Some n /\
    n mod 256 = 223 /\ n / 2 ^ 26 = 6 /\ (n / 256) mod 2 ^ 18 = 0x3B800 /\
    parseInt16 (claim_can_id 223) = Some n' /\
    n' mod 256 = 223 /\ n' / 2 ^ 26 = 6 /\ (n' / 256) mod 2 ^ 18 = 0xEE00.
Proof.
  refine (store_frame_not_address_claimed (timer_msg 223)
            (claiming_store 223 "8000000000ABCDEF") 223 _ _ _).
  - reflexivity.
  - reflexivity.
  - unfold MIN_ADDRESS, STARTING_ADDRESS. lia.
Defined.
